(** * Crestron fan platform: percentage <-> analog signal mapping

    A shallow embedding of [custom_components/crestron/fan.py] and the
    properties of its speed and direction mapping.

    The Python code computes with [float] (IEEE 754 binary64) and converts
    back to [int] with [round] (round half to even) and [int] (truncation
    toward zero).  The embedding keeps that arithmetic: floats are the
    [spec_float] values of the Standard Library with precision 53 and
    exponent bound 1024, the operations are the correctly rounded ones of
    [SpecFloat], and an operation that raises in Python ([OverflowError],
    [ZeroDivisionError], [ValueError]) returns [None]. *)

From Stdlib Require Import ZArith Lia Bool List String SpecFloat Reals Lra.
From stdpp Require Import base option strings.

Open Scope Z_scope.

(** ** Python numbers *)

Module Py.

Definition prec : Z := 53.
Definition emax : Z := 1024.

Abbreviation float := spec_float.

(** A float result that Python would refuse to produce from integer
    operands: the conversion or the quotient overflowed. *)
Definition checked (x : float) : option float :=
  match x with
  | S754_infinity _ | S754_nan => None
  | _ => Some x
  end.

(** [float(n)]: nearest double, ties to even; [OverflowError] when [n]
    is too large. *)
Definition float_of_int (n : Z) : option float :=
  checked (binary_normalize prec emax n 0 false).

(** [a / b] on two [int]s: the correctly rounded quotient;
    [ZeroDivisionError] when [b] is 0, [OverflowError] when the quotient
    is too large for a double. *)
Definition int_truediv (a b : Z) : option float :=
  match a, b with
  | _, 0 => None
  | 0, _ => Some (S754_zero (b <? 0))
  | _, _ =>
      let '(q, e, l) :=
        SFdiv_core_binary prec emax (Z.abs a) 0 (Z.abs b) 0 in
      checked (binary_round_aux prec emax (xorb (a <? 0) (b <? 0)) q e l)
  end.

(** [x / y] on two floats; [ZeroDivisionError] when [y] is zero. *)
Definition float_truediv (x y : float) : option float :=
  match y with
  | S754_zero _ => None
  | _ => Some (SFdiv prec emax x y)
  end.

(** [x * y] on two floats (never raises; may give an infinity). *)
Definition float_mul (x y : float) : float := SFmul prec emax x y.

(** [n / y] and [x * n] with an [int] operand: the [int] is converted
    first. *)
Definition int_float_truediv (n : Z) (y : float) : option float :=
  x ← float_of_int n; float_truediv x y.

Definition float_int_mul (x : float) (n : Z) : option float :=
  y ← float_of_int n; Some (float_mul x y).

Definition cond_opp (s : bool) (z : Z) : Z := if s then - z else z.

(** [int(x)]: truncation toward zero; raises on infinities and NaN. *)
Definition int (x : float) : option Z :=
  match x with
  | S754_zero _ => Some 0
  | S754_finite s m e =>
      Some (cond_opp s
              (if 0 <=? e then Z.shiftl (Zpos m) e
               else Z.shiftr (Zpos m) (- e)))
  | _ => None
  end.

(** [round(x)] with one argument: the nearest integer, ties to the even
    one; raises on infinities and NaN. *)
Definition round (x : float) : option Z :=
  match x with
  | S754_zero _ => Some 0
  | S754_finite s m e =>
      Some (cond_opp s
              (if 0 <=? e then Z.shiftl (Zpos m) e
               else
                 let q := Z.shiftr (Zpos m) (- e) in
                 let r := Zpos m - Z.shiftl q (- e) in
                 match 2 * r ?= Z.shiftl 1 (- e) with
                 | Lt => q
                 | Gt => q + 1
                 | Eq => if Z.even q then q else q + 1
                 end))
  | _ => None
  end.

End Py.

(** ** The hub *)

Module Hub.

(** A signal written to the control system: an analog join with its
    16-bit value or a digital join with its boolean. *)
Inductive signal : Type :=
| Analog (join value : Z)
| Digital (join : Z) (value : bool).

(** Modelled from the spec: the hub collaborator (section 6), whose class
    is not part of [fan.py].  It holds a value for every analog join and a
    boolean for every digital join; a read returns the value held, a write
    replaces it.  [sent] records the writes in order, so that a write of the
    value a join already holds is still seen. *)
Record t : Type := mk {
  analog : Z -> Z;
  digital : Z -> bool;
  available : bool;
  sent : list signal
}.

Definition get_analog (hub : t) (join : Z) : Z := analog hub join.

Definition get_digital (hub : t) (join : Z) : bool := digital hub join.

Definition set_analog (hub : t) (join value : Z) : t :=
  {| analog := fun j => if j =? join then value else analog hub j;
     digital := digital hub;
     available := available hub;
     sent := sent hub ++ [Analog join value] |}.

Definition set_digital (hub : t) (join : Z) (value : bool) : t :=
  {| analog := analog hub;
     digital := fun j => if j =? join then value else digital hub j;
     available := available hub;
     sent := sent hub ++ [Digital join value] |}.

Definition is_available (hub : t) : bool := available hub.

(** Modelled from the spec: a change of a join reported by the control
    system (the feedback the change notifications announce).  It updates
    the hub's own copy and is not a write of the adapter. *)
Definition analog_changed (hub : t) (join value : Z) : t :=
  {| analog := fun j => if j =? join then value else analog hub j;
     digital := digital hub;
     available := available hub;
     sent := sent hub |}.

Definition digital_changed (hub : t) (join : Z) (value : bool) : t :=
  {| analog := analog hub;
     digital := fun j => if j =? join then value else digital hub j;
     available := available hub;
     sent := sent hub |}.

End Hub.

(** ** The fan entity *)

Inductive FanEntityFeature : Type := SET_SPEED | DIRECTION.

(** The platform configuration of one fan ([PLATFORM_SCHEMA]): the name and
    the speed join are required, the number of speed steps and the join of
    the reversal are optional. *)
Record config : Type := {
  CONF_NAME : string;
  CONF_SPEED_JOIN : Z;
  CONF_SPEED_STEPS : option Z;
  CONF_REVERSE_JOIN : option Z
}.

(** The attributes [__init__] sets (fan.py, lines 30-49).  The hub is not a field here: the
    entity keeps a reference to the one shared hub, which every method
    below receives and returns.  The unique id (the host's [slugify] of the
    name) takes no part in the mapping and is left out. *)
Record CrestronFan : Type := {
  _name : string;
  _speed_join : Z;
  _speed_steps : option Z;
  _reverse_join : option Z;
  _attr_supported_features : list FanEntityFeature;
  _attr_speed_count : Z
}.

Definition __init__ (c : config) : CrestronFan :=
  {| _name := CONF_NAME c;
     _speed_join := CONF_SPEED_JOIN c;
     _speed_steps := CONF_SPEED_STEPS c;
     _reverse_join := CONF_REVERSE_JOIN c;
     _attr_supported_features :=
       match CONF_REVERSE_JOIN c with
       | Some _ => [SET_SPEED; DIRECTION]
       | None => [SET_SPEED]
       end;
     _attr_speed_count :=
       match CONF_SPEED_STEPS c with
       | Some steps => steps
       | None => 100
       end |}.

Definition available (self : CrestronFan) (hub : Hub.t) : bool :=
  Hub.is_available hub.

Definition name (self : CrestronFan) : string := _name self.

Definition should_poll (self : CrestronFan) : bool := false.

(** [current_step] in the stepped branch of [percentage] (lines 90-91):
    the step a raw value stands for. *)
Definition current_step_of (steps raw_value : Z) : option Z :=
  step_size ← Py.int_truediv 65535 steps;
  x ← Py.int_float_truediv raw_value step_size;
  n ← Py.round x;
  Some (Z.min steps (Z.max 1 n)).

(** [int((current_step / steps) * 100)] (line 92). *)
Definition percentage_of_step (steps current_step : Z) : option Z :=
  y ← Py.int_truediv current_step steps;
  z ← Py.float_int_mul y 100;
  Py.int z.

(** The body of the [percentage] property (lines 80-95) after the read of
    the join: the percentage as a function of the raw value and the step
    count. *)
Definition percentage_of_raw (speed_steps : option Z) (raw_value : Z)
  : option Z :=
  if raw_value =? 0 then Some 0
  else
    match speed_steps with
    | Some steps =>
        current_step ← current_step_of steps raw_value;
        percentage_of_step steps current_step
    | None =>
        y ← Py.int_truediv raw_value 65535;
        z ← Py.float_int_mul y 100;
        n ← Py.int z;
        Some (Z.max 1 (Z.min 100 n))
    end.

Definition percentage (self : CrestronFan) (hub : Hub.t) : option Z :=
  percentage_of_raw (_speed_steps self)
                    (Hub.get_analog hub (_speed_join self)).

(** [is_on]: the property reads [percentage] and compares it with 0. *)
Definition is_on (self : CrestronFan) (hub : Hub.t) : option bool :=
  p ← percentage self hub; Some (0 <? p).

(** [current_direction] (lines 97-102): [None] is Python's [None], the
    property does not raise. *)
Definition current_direction (self : CrestronFan) (hub : Hub.t)
  : option string :=
  match _reverse_join self with
  | None => None
  | Some join =>
      Some (if Hub.get_digital hub join then "reverse" else "forward")%string
  end.

Definition async_turn_off (self : CrestronFan) (hub : Hub.t) : option Hub.t :=
  Some (Hub.set_analog hub (_speed_join self) 0).

(** [step] in the stepped branch of [async_set_percentage] (line 113). *)
Definition step_of_percentage (steps percentage : Z) : option Z :=
  y ← Py.int_truediv percentage 100;
  z ← Py.float_int_mul y steps;
  n ← Py.round z;
  Some (Z.max 1 (Z.min steps n)).

(** [int((step * 65535) / steps)] (line 114). *)
Definition analog_of_step (steps step : Z) : option Z :=
  w ← Py.int_truediv (step * 65535) steps;
  Py.int w.

(** The analog value [async_set_percentage] (lines 104-119) computes for a
    percentage other than 0. *)
Definition analog_value_of (speed_steps : option Z) (percentage : Z)
  : option Z :=
  match speed_steps with
  | Some steps =>
      step ← step_of_percentage steps percentage;
      analog_of_step steps step
  | None =>
      y ← Py.int_truediv percentage 100;
      z ← Py.float_int_mul y 65535;
      Py.int z
  end.

Definition async_set_percentage (self : CrestronFan) (percentage : Z)
    (hub : Hub.t) : option Hub.t :=
  if percentage =? 0 then async_turn_off self hub
  else
    analog_value ← analog_value_of (_speed_steps self) percentage;
    Some (Hub.set_analog hub (_speed_join self) analog_value).

(** The percentage [async_turn_on] (lines 121-129) commands when it is
    given none: [int((1 / steps) * 100)], or 1 without steps. *)
Definition default_percentage (speed_steps : option Z) : option Z :=
  match speed_steps with
  | Some steps =>
      y ← Py.int_truediv 1 steps;
      z ← Py.float_int_mul y 100;
      Py.int z
  | None => Some 1
  end.

Definition async_turn_on (self : CrestronFan) (percentage : option Z)
    (hub : Hub.t) : option Hub.t :=
  p ← match percentage with
      | None => default_percentage (_speed_steps self)
      | Some p => Some p
      end;
  async_set_percentage self p hub.

Definition async_set_direction (self : CrestronFan) (direction : string)
    (hub : Hub.t) : option Hub.t :=
  match _reverse_join self with
  | None => Some hub
  | Some join =>
      let reverse_state := String.eqb direction "reverse" in
      Some (Hub.set_digital hub join reverse_state)
  end.

(** ** Histories of commands and hub changes *)

(** What can happen to one fan and its hub: a command of the host
    platform or a change reported by the control system. *)
Inductive event : Type :=
| TurnOn (percentage : option Z)
| TurnOff
| SetPercentage (percentage : Z)
| SetDirection (direction : string)
| AnalogChanged (join value : Z)
| DigitalChanged (join : Z) (value : bool).

Definition handle (self : CrestronFan) (ev : event) (hub : Hub.t)
  : option Hub.t :=
  match ev with
  | TurnOn p => async_turn_on self p hub
  | TurnOff => async_turn_off self hub
  | SetPercentage p => async_set_percentage self p hub
  | SetDirection d => async_set_direction self d hub
  | AnalogChanged j v => Some (Hub.analog_changed hub j v)
  | DigitalChanged j b => Some (Hub.digital_changed hub j b)
  end.

(** A command that raises has not written yet (the write is the last
    statement of every method), so it leaves the hub as it was. *)
Definition run (self : CrestronFan) (evs : list event) (hub : Hub.t)
  : Hub.t :=
  fold_left (fun h ev => default h (handle self ev h)) evs hub.

Definition empty_hub : Hub.t :=
  {| Hub.analog := fun _ => 0; Hub.digital := fun _ => false;
     Hub.available := true;
     Hub.sent := [] |}.

(** ** Checking a property on a range of integers *)

(** [f] holds on [lo], [lo + 1], ..., [lo + n - 1]. *)
Fixpoint range_all (f : Z -> bool) (lo : Z) (n : nat) : bool :=
  match n with
  | O => true
  | S n' => f lo && range_all f (lo + 1) n'
  end.

Definition opt_eqb (a b : option Z) : bool :=
  match a, b with
  | Some x, Some y => x =? y
  | None, None => true
  | _, _ => false
  end.

(** ** The mapping as the specification words it *)

Module Spec.

Definition clamp (x lo hi : Z) : Z := Z.max lo (Z.min hi x).

(** Section 4.1: [k = clamp(round((p/100)*S), 1, S)], raw value
    [round(k * 65535 / S)]; stepless [round((p/100) * 65535)]. *)
Definition raw_of_step (steps k : Z) : option Z :=
  w ← Py.int_truediv (k * 65535) steps; Py.round w.

Definition analog_value_of (speed_steps : option Z) (p : Z) : option Z :=
  match speed_steps with
  | Some steps =>
      y ← Py.int_truediv p 100;
      z ← Py.float_int_mul y steps;
      n ← Py.round z;
      raw_of_step steps (clamp n 1 steps)
  | None =>
      y ← Py.int_truediv p 100;
      z ← Py.float_int_mul y 65535;
      Py.round z
  end.

(** Section 4.2: [step_size = 65535/S],
    [current_step = clamp(round(r/step_size), 1, S)], percentage
    [round(current_step/S * 100)]; stepless
    [clamp(round(r/65535*100), 1, 100)]. *)
Definition percentage_of_step (steps k : Z) : option Z :=
  y ← Py.int_truediv k steps;
  z ← Py.float_int_mul y 100;
  Py.round z.

Definition percentage_of_raw (speed_steps : option Z) (r : Z) : option Z :=
  if r =? 0 then Some 0
  else
    match speed_steps with
    | Some steps =>
        step_size ← Py.int_truediv 65535 steps;
        x ← Py.int_float_truediv r step_size;
        n ← Py.round x;
        percentage_of_step steps (clamp n 1 steps)
    | None =>
        y ← Py.int_truediv r 65535;
        z ← Py.float_int_mul y 100;
        n ← Py.round z;
        Some (clamp n 1 100)
    end.

(** Section 4.4: [round(100/S)], stepless 1. *)
Definition default_percentage (speed_steps : option Z) : option Z :=
  match speed_steps with
  | Some steps => w ← Py.int_truediv 100 steps; Py.round w
  | None => Some 1
  end.

End Spec.

(** ** What the entity sends *)

(** A write is the entity's own when it goes to the speed join (analog) or
    to the join of the reversal (digital): the only two joins the methods
    of [CrestronFan] pass to the hub. *)
Definition own_signal (self : CrestronFan) (w : Hub.signal) : bool :=
  match w with
  | Hub.Analog join _ => join =? _speed_join self
  | Hub.Digital join _ =>
      match _reverse_join self with
      | Some j => join =? j
      | None => false
      end
  end.

(** An analog write fits the 16 bits of an analog join. *)
Definition uint16_signal (w : Hub.signal) : bool :=
  match w with
  | Hub.Analog _ value => (0 <=? value) && (value <=? 65535)
  | Hub.Digital _ _ => true
  end.

(** A command whose percentage, if it carries one, is in [0, 100]. *)
Definition percent_event (ev : event) : bool :=
  match ev with
  | TurnOn (Some p) | SetPercentage p => (0 <=? p) && (p <=? 100)
  | _ => true
  end.

(** The commands on the speed: [async_turn_on], [async_turn_off] and
    [async_set_percentage]. *)
Definition speed_command (ev : event) : bool :=
  match ev with
  | TurnOn _ | TurnOff | SetPercentage _ => true
  | _ => false
  end.

(** The percentage [percentage] returns after [async_set_percentage] has
    written a percentage [p] without a step count: both conversions
    truncate. *)
Definition stepless_readback (p : Z) : Z :=
  if (p mod 20 =? 0) || (p =? 1) then p else p - 1.

(** Whether a speed command asks for a running fan: turn-off and a
    percentage of 0 do not. *)
Definition commanded_on (ev : event) : bool :=
  match ev with
  | TurnOn None => true
  | TurnOn (Some p) | SetPercentage p => negb (p =? 0)
  | _ => false
  end.

(** ** Configurations used as examples *)

Definition fan_with_reverse : CrestronFan :=
  __init__ {| CONF_NAME := "fan"; CONF_SPEED_JOIN := 7;
              CONF_SPEED_STEPS := Some 3; CONF_REVERSE_JOIN := Some 8 |}.

Definition stepless_fan : CrestronFan :=
  __init__ {| CONF_NAME := "fan"; CONF_SPEED_JOIN := 7;
              CONF_SPEED_STEPS := None; CONF_REVERSE_JOIN := None |}.

Definition fan_with_steps (steps : Z) : CrestronFan :=
  __init__ {| CONF_NAME := "fan"; CONF_SPEED_JOIN := 7;
              CONF_SPEED_STEPS := Some steps; CONF_REVERSE_JOIN := None |}.

(** ** The exact decoder step *)

(** The nearest integer to [r * steps / 65535]; the quotient is never half
    an integer since 65535 is odd. *)
Definition nearest_step (steps r : Z) : Z := (2 * r * steps + 65535) / 131070.




(** ** Floats as real numbers *)

Section values.
Local Open Scope R_scope.

(** Powers of two with an integer exponent. *)
Definition pow2 (e : Z) : R := powerRZ 2 e.

(** The position of a real [y] relative to the integer part [shr_m] kept
    in a shift record and its round and sticky bits. *)
Definition loc (y : R) (mrs : shr_record) : Prop :=
  let m := IZR (shr_m mrs) in
  match shr_r mrs, shr_s mrs with
  | false, false => y = m
  | false, true => m < y < m + / 2
  | true, false => y = m + / 2
  | true, true => m + / 2 < y < m + 1
  end.

(** The real number a float stands for (0 for the zeros and for the
    values that are not numbers). *)
Definition F2R (f : Py.float) : R :=
  match f with
  | S754_finite s m e => IZR (Py.cond_opp s (Zpos m)) * pow2 e
  | _ => 0
  end.

(** A positive normal double: 53 significant bits, exponent in range. *)
Definition normal (f : Py.float) : Prop :=
  exists m e, f = S754_finite false m e
    /\ (2 ^ 52 <= Zpos m < 2 ^ 53)%Z /\ (-1074 <= e <= 971)%Z.

(** [f] is a double nearest to the positive real [x]: it lies on the grid
    of spacing [2^fe] that has 53 bits at [x], at most half a step away. *)
Definition rounds (x : R) (f : Py.float) : Prop :=
  normal f
  /\ exists fe mr, F2R f = IZR mr * pow2 fe
       /\ Rabs (IZR mr - x / pow2 fe) <= / 2
       /\ pow2 52 <= x / pow2 fe < pow2 53.

(** The unit roundoff of doubles. *)
Definition u53 : R := pow2 (-53).

End values.

(** ** Rounding to nearest in [SpecFloat] *)

Section rounding.
Local Open Scope R_scope.

(** *** Powers of two *)

Lemma pow2_pos e : 0 < pow2 e.
Proof. apply powerRZ_lt. lra. Qed.

Lemma pow2_add a b : pow2 (a + b) = pow2 a * pow2 b.
Proof. apply powerRZ_add. lra. Qed.

Lemma pow2_0 : pow2 0 = 1.
Proof. reflexivity. Qed.

Lemma pow2_1 : pow2 1 = 2.
Proof. unfold pow2. simpl. lra. Qed.

Lemma pow2_succ e : pow2 (e + 1) = 2 * pow2 e.
Proof. rewrite pow2_add, pow2_1. lra. Qed.

Lemma pow2_opp e : pow2 (- e) = / pow2 e.
Proof. apply powerRZ_neg'. Qed.

Lemma pow2_IZR e : (0 <= e)%Z -> pow2 e = IZR (2 ^ e).
Proof.
  intros He. unfold pow2. rewrite <- (Z2Nat.id e He) at 1 2.
  rewrite <- pow_powerRZ. by rewrite pow_IZR.
Qed.

Lemma pow2_le a b : (a <= b)%Z -> pow2 a <= pow2 b.
Proof.
  intros Hab. replace b with (a + (b - a))%Z by lia.
  rewrite pow2_add, (pow2_IZR (b - a)) by lia.
  assert (1 <= IZR (2 ^ (b - a))).
  { apply IZR_le. assert (0 < 2 ^ (b - a))%Z by (apply Z.pow_pos_nonneg; lia). lia. }
  pose proof (pow2_pos a). nra.
Qed.

(** *** Shifting a mantissa and rounding it *)

Lemma loc_bounds y mrs :
  loc y mrs -> IZR (shr_m mrs) <= y < IZR (shr_m mrs) + 1.
Proof. unfold loc. destruct (shr_r mrs), (shr_s mrs); simpl; lra. Qed.

Lemma IZR_xO p : IZR (Zpos p~0) = 2 * IZR (Zpos p).
Proof. rewrite Pos2Z.inj_xO, mult_IZR. lra. Qed.

Lemma IZR_xI p : IZR (Zpos p~1) = 2 * IZR (Zpos p) + 1.
Proof. rewrite Pos2Z.inj_xI, plus_IZR, mult_IZR. lra. Qed.

(** One shift to the right halves the real and keeps its position. *)
Lemma shr_1_loc y mrs :
  (0 <= shr_m mrs)%Z -> loc y mrs ->
  loc (y / 2) (shr_1 mrs) /\ (0 <= shr_m (shr_1 mrs))%Z.
Proof.
  destruct mrs as [m r s]. cbn [shr_m]. intros Hm.
  destruct m as [|p|p]; [| |lia].
  - unfold loc; destruct r, s; cbn [shr_1 shr_m shr_r shr_s orb];
      intros; split; try lia; lra.
  - destruct p as [p|p|];
      [pose proof (IZR_xI p)|pose proof (IZR_xO p)|];
      unfold loc; destruct r, s; cbn [shr_1 shr_m shr_r shr_s orb];
      intros; split; try lia; lra.
Qed.

Lemma iter_shr_loc p : forall y mrs,
  (0 <= shr_m mrs)%Z -> loc y mrs ->
  loc (y / pow2 (Zpos p)) (SpecFloat.iter_pos shr_1 p mrs)
  /\ (0 <= shr_m (SpecFloat.iter_pos shr_1 p mrs))%Z.
Proof.
  induction p as [p IH|p IH|]; intros y mrs Hm Hy;
    cbn [SpecFloat.iter_pos].
  - destruct (shr_1_loc y mrs Hm Hy) as [H1 H1'].
    destruct (IH _ _ H1' H1) as [H2 H2'].
    destruct (IH _ _ H2' H2) as [H3 H3'].
    split; [|exact H3'].
    replace (y / pow2 (Zpos p~1))
      with (y / 2 / pow2 (Zpos p) / pow2 (Zpos p)); [exact H3|].
    rewrite Pos2Z.inj_xI.
    replace (2 * Zpos p + 1)%Z with (Zpos p + Zpos p + 1)%Z by lia.
    rewrite pow2_succ, pow2_add. pose proof (pow2_pos (Zpos p)).
    field. lra.
  - destruct (IH _ _ Hm Hy) as [H2 H2'].
    destruct (IH _ _ H2' H2) as [H3 H3'].
    split; [|exact H3'].
    replace (y / pow2 (Zpos p~0))
      with (y / pow2 (Zpos p) / pow2 (Zpos p)); [exact H3|].
    rewrite Pos2Z.inj_xO.
    replace (2 * Zpos p)%Z with (Zpos p + Zpos p)%Z by lia.
    rewrite pow2_add. pose proof (pow2_pos (Zpos p)). field. lra.
  - destruct (shr_1_loc y mrs Hm Hy) as [H1 H1']. split; [|exact H1'].
    rewrite pow2_1. exact H1.
Qed.

Lemma shr_loc y mrs e n :
  (0 <= shr_m mrs)%Z -> (0 <= n)%Z -> loc y mrs ->
  exists mrs', shr mrs e n = (mrs', (e + n)%Z)
    /\ loc (y / pow2 n) mrs' /\ (0 <= shr_m mrs')%Z.
Proof.
  intros Hm Hn Hy. destruct n as [|p|p]; [| |lia].
  - exists mrs. rewrite Z.add_0_r, pow2_0, Rdiv_1_r. by repeat split.
  - exists (SpecFloat.iter_pos shr_1 p mrs). split; [reflexivity|].
    by apply iter_shr_loc.
Qed.

(** Rounding to nearest-even moves to an integer at most one half away. *)
Lemma rne_loc y mrs :
  loc y mrs ->
  let n := round_nearest_even (shr_m mrs) (loc_of_shr_record mrs) in
  Rabs (IZR n - y) <= / 2 /\ (shr_m mrs <= n <= shr_m mrs + 1)%Z.
Proof.
  destruct mrs as [m r s]. unfold loc; simpl.
  destruct r, s; simpl; intros Hy.
  - split; [|lia]. rewrite plus_IZR. apply Rabs_le. lra.
  - destruct (Z.even m); (split; [|lia]); rewrite ?plus_IZR; apply Rabs_le; lra.
  - split; [|lia]. apply Rabs_le. lra.
  - split; [|lia]. apply Rabs_le. lra.
Qed.

(** *** Number of bits *)

Lemma digits2_bounds p :
  (2 ^ (Zpos (digits2_pos p) - 1) <= Zpos p < 2 ^ Zpos (digits2_pos p))%Z.
Proof.
  induction p as [p IH|p IH|]; simpl digits2_pos; rewrite ?Pos2Z.inj_succ.
  - replace (Z.succ (Zpos (digits2_pos p)) - 1)%Z
      with (Z.succ (Zpos (digits2_pos p) - 1)) by lia.
    rewrite !Z.pow_succ_r by lia. lia.
  - replace (Z.succ (Zpos (digits2_pos p)) - 1)%Z
      with (Z.succ (Zpos (digits2_pos p) - 1)) by lia.
    rewrite !Z.pow_succ_r by lia. lia.
  - simpl. lia.
Qed.

Lemma Zdigits2_bounds m :
  (0 < m)%Z -> (2 ^ (Zdigits2 m - 1) <= m < 2 ^ Zdigits2 m)%Z /\ (0 < Zdigits2 m)%Z.
Proof.
  destruct m as [|p|p]; try lia. intros _. simpl. split; [apply digits2_bounds|lia].
Qed.

Lemma Zdigits2_unique m d :
  (0 < d)%Z -> (2 ^ (d - 1) <= m < 2 ^ d)%Z -> Zdigits2 m = d.
Proof.
  intros Hd Hm.
  assert (0 < m)%Z as Hpos.
  { assert (0 < 2 ^ (d - 1))%Z by (apply Z.pow_pos_nonneg; lia). lia. }
  destruct (Zdigits2_bounds m Hpos) as [Hb Hd'].
  destruct (Z.lt_trichotomy (Zdigits2 m) d) as [Hlt|[Heq|Hgt]]; [|done|].
  - assert (2 ^ Zdigits2 m <= 2 ^ (d - 1))%Z by (apply Z.pow_le_mono_r; lia). lia.
  - assert (2 ^ d <= 2 ^ (Zdigits2 m - 1))%Z by (apply Z.pow_le_mono_r; lia). lia.
Qed.

Lemma fexp_normal e : (-1074 <= e - 53)%Z -> fexp 53 1024 e = (e - 53)%Z.
Proof. unfold fexp, emin. lia. Qed.

Lemma shr_m_of_loc m l : shr_m (shr_record_of_loc m l) = m.
Proof. by destruct l as [|[]]. Qed.

Lemma IZR_pow2_le n k : (2 ^ k <= n)%Z -> (0 <= k)%Z -> pow2 k <= IZR n.
Proof. intros H Hk. rewrite pow2_IZR by done. by apply IZR_le. Qed.

Lemma IZR_pow2_lt n k : (n < 2 ^ k)%Z -> (0 <= k)%Z -> IZR n + 1 <= pow2 k.
Proof.
  intros H Hk. rewrite pow2_IZR by done. rewrite <- (plus_IZR n 1).
  apply IZR_le. lia.
Qed.

Lemma Rdiv_bounds (a b y u : R) :
  0 < u -> a * u <= y < b * u -> a <= y / u < b.
Proof.
  intros Hu [H1 H2]. split.
  - apply Rmult_le_reg_r with u; [done|]. replace (y / u * u) with y by (field; lra). done.
  - apply Rmult_lt_reg_r with u; [done|]. replace (y / u * u) with y by (field; lra). done.
Qed.

(** *** The rounding of [SpecFloat]

    [binary_round_aux] on a mantissa of at least 53 bits that locates the
    positive real [x], above the subnormal range: the result is an integer
    [mr] nearest to [x / 2^fe] times [2^fe], for [fe] the exponent that
    leaves 53 bits, as a normal double, or an infinity when that exponent
    is beyond the range. *)
Lemma binary_round_aux_correct (m e : Z) (l : location) (x : R) :
  (0 < m)%Z -> (53 <= Zdigits2 m)%Z ->
  (-1074 <= Zdigits2 m + e - 53)%Z ->
  loc (x / pow2 e) (shr_record_of_loc m l) ->
  let fe := (Zdigits2 m + e - 53)%Z in
  pow2 52 <= x / pow2 fe < pow2 53
  /\ ((exists m' e' mr,
         binary_round_aux 53 1024 false m e l = S754_finite false m' e'
         /\ (2 ^ 52 <= Zpos m' < 2 ^ 53)%Z /\ (-1074 <= e' <= 971)%Z
         /\ IZR (Zpos m') * pow2 e' = IZR mr * pow2 fe
         /\ Rabs (IZR mr - x / pow2 fe) <= / 2)
       \/ (binary_round_aux 53 1024 false m e l = S754_infinity false
           /\ (971 <= fe)%Z)).
Proof.
  intros Hm Hd Hfe Hloc fe.
  destruct (Zdigits2_bounds m Hm) as [Hdig _].
  set (d := Zdigits2 m) in *.
  unfold binary_round_aux, shr_fexp. fold d.
  rewrite (fexp_normal (d + e)) by lia. fold fe.
  destruct (shr_loc (x / pow2 e) (shr_record_of_loc m l) e (fe - e))
    as (mrs' & Hshr & Hloc' & Hm');
    [by rewrite shr_m_of_loc; lia|unfold fe; lia|done|].
  rewrite Hshr.
  replace (e + (fe - e))%Z with fe by lia.
  replace (x / pow2 e / pow2 (fe - e)) with (x / pow2 fe) in Hloc'.
  2:{ replace fe with (e + (fe - e))%Z at 1 by lia. rewrite pow2_add.
      pose proof (pow2_pos e). pose proof (pow2_pos (fe - e)). field. lra. }
  assert (pow2 52 <= x / pow2 fe < pow2 53) as Hz.
  { replace (x / pow2 fe) with (x / pow2 e / pow2 (d - 53)).
    2:{ replace fe with (e + (d - 53))%Z by (unfold fe; lia). rewrite pow2_add.
        pose proof (pow2_pos e). pose proof (pow2_pos (d - 53)). field. lra. }
    apply Rdiv_bounds; [apply pow2_pos|].
    rewrite <- !pow2_add.
    replace (52 + (d - 53))%Z with (d - 1)%Z by lia.
    replace (53 + (d - 53))%Z with d by lia.
    apply loc_bounds in Hloc. rewrite shr_m_of_loc in Hloc.
    pose proof (IZR_pow2_le m (d - 1) ltac:(lia) ltac:(lia)).
    pose proof (IZR_pow2_lt m d ltac:(lia) ltac:(lia)). lra. }
  split; [done|].
  pose proof (loc_bounds _ _ Hloc') as Hb.
  pose proof (rne_loc _ _ Hloc') as [Hrne Hmr].
  set (m1 := shr_m mrs') in *.
  set (mr := round_nearest_even m1 (loc_of_shr_record mrs')) in *.
  assert (2 ^ 52 <= m1 < 2 ^ 53)%Z as Hm1.
  { rewrite (pow2_IZR 52), (pow2_IZR 53) in Hz by lia. split.
    - apply Z.lt_succ_r, lt_IZR. rewrite succ_IZR. lra.
    - apply lt_IZR. lra. }
  assert (-1074 <= fe)%Z as Hfe' by (unfold fe; lia).
  clearbody fe.
  destruct (Z.eq_dec mr (2 ^ 53)%Z) as [Heq|Hne].
  - assert (fexp 53 1024 (Zdigits2 mr + fe) - fe = 1)%Z as ->.
    { rewrite Heq. change (Zdigits2 (2 ^ 53)%Z) with 54%Z.
      rewrite fexp_normal by lia. lia. }
    rewrite Heq. cbn [shr_record_of_loc shr SpecFloat.iter_pos].
    change (shr_m (shr_1 _)) with (2 ^ 52)%Z.
    change (2 ^ 52)%Z with (Zpos (2 ^ 52)) at 1.
    cbv iota beta. change (1024 - 53)%Z with 971%Z.
    destruct (Z.leb_spec (fe + 1) 971) as [Hle|Hgt]; [left|right; split; [done|lia]].
    exists (2 ^ 52)%positive, (fe + 1)%Z, mr.
    split; [done|]. split; [done|]. split; [lia|].
    split; [|done].
    rewrite pow2_succ, Heq.
    change (IZR (Zpos (2 ^ 52))) with (IZR (2 ^ 52)%Z).
    rewrite <- !pow2_IZR by lia.
    replace (pow2 53) with (2 * pow2 52); [lra|].
    by rewrite <- pow2_succ.
  - assert (Zdigits2 mr = 53%Z) as Hdmr by (apply Zdigits2_unique; lia).
    rewrite Hdmr, (fexp_normal (53 + fe)) by lia.
    replace (53 + fe - 53 - fe)%Z with 0%Z by lia.
    cbn [shr]. rewrite shr_m_of_loc.
    destruct mr as [|pm|pm] eqn:Hmreq; [lia| |lia].
    change (1024 - 53)%Z with 971%Z.
    destruct (Z.leb_spec fe 971) as [Hle|Hgt]; [left|right; split; [done|lia]].
    exists pm, fe, (Zpos pm).
    split; [done|]. split; [lia|]. split; [lia|].
    split; [done|]. done.
Qed.

Lemma Rabs_le_inv (x y : R) : Rabs x <= y -> - y <= x <= y.
Proof. unfold Rabs. destruct (Rcase_abs x); lra. Qed.

Lemma pow2_lt_inv a b : pow2 a < pow2 b -> (a < b)%Z.
Proof.
  intros H. destruct (Z_lt_le_dec a b) as [|Hle]; [done|].
  apply pow2_le in Hle. lra.
Qed.

Lemma Rmult_div_bounds (a b y u : R) :
  0 < u -> a <= y / u < b -> a * u <= y < b * u.
Proof.
  intros Hu [H1 H2]. assert (y = y / u * u) as Hy by (field; lra).
  split; [apply (Rmult_le_compat_r u) in H1|apply (Rmult_lt_compat_r u) in H2];
    lra.
Qed.

(** The same in terms of [rounds]. *)
Lemma round_aux_rounds (m e : Z) (l : location) (x : R) :
  (0 < m)%Z -> (53 <= Zdigits2 m)%Z ->
  loc (x / pow2 e) (shr_record_of_loc m l) ->
  pow2 (-1022) <= x ->
  let f := binary_round_aux 53 1024 false m e l in
  rounds x f \/ (f = S754_infinity false /\ pow2 1023 <= x).
Proof.
  intros Hm Hd Hloc Hx f.
  destruct (Zdigits2_bounds m Hm) as [Hdig _].
  assert (pow2 (Zdigits2 m - 1 + e) <= x < pow2 (Zdigits2 m + e)) as Hxe.
  { rewrite !pow2_add. apply Rmult_div_bounds; [apply pow2_pos|].
    apply loc_bounds in Hloc. rewrite shr_m_of_loc in Hloc.
    pose proof (IZR_pow2_le m (Zdigits2 m - 1) ltac:(lia) ltac:(lia)).
    pose proof (IZR_pow2_lt m (Zdigits2 m) ltac:(lia) ltac:(lia)). lra. }
  assert (-1074 <= Zdigits2 m + e - 53)%Z as Hfe.
  { assert (pow2 (-1022) < pow2 (Zdigits2 m + e)) as H1 by lra.
    apply pow2_lt_inv in H1. lia. }
  destruct (binary_round_aux_correct m e l x Hm Hd Hfe Hloc)
    as (Hb & [(m' & e' & mr & Heq & Hm' & He' & Hv & Hr)|[Heq Hov]]).
  - left. unfold f. rewrite Heq.
    split; [exists m', e'; auto|].
    exists (Zdigits2 m + e - 53)%Z, mr. cbn [F2R Py.cond_opp]. auto.
  - right. split; [done|].
    apply Rle_trans with (pow2 (Zdigits2 m - 1 + e)); [apply pow2_le; lia|lra].
Qed.

Lemma normal_F2R f :
  normal f -> exists m e, f = S754_finite false m e
    /\ F2R f = IZR (Zpos m) * pow2 e
    /\ pow2 (e + 52) <= F2R f < pow2 (e + 53)
    /\ (2 ^ 52 <= Zpos m < 2 ^ 53)%Z /\ (-1074 <= e <= 971)%Z.
Proof.
  intros (m & e & -> & Hm & He). exists m, e. split; [done|].
  split; [done|]. split; [|done]. cbn [F2R Py.cond_opp].
  rewrite (Z.add_comm e 52), (Z.add_comm e 53), !pow2_add.
  pose proof (IZR_pow2_le (Zpos m) 52 ltac:(lia) ltac:(lia)).
  pose proof (IZR_pow2_lt (Zpos m) 53 ltac:(lia) ltac:(lia)).
  pose proof (pow2_pos e). nra.
Qed.

(** Relative error of a rounding: at most [2^-53]. *)
Lemma rounds_error x f :
  rounds x f -> Rabs (F2R f - x) <= x * pow2 (-53).
Proof.
  intros (_ & fe & mr & -> & Hr & Hb).
  pose proof (pow2_pos fe) as Hfe.
  set (y := x / pow2 fe) in *.
  assert (x = y * pow2 fe) as Hxy by (unfold y; field; lra).
  clearbody y. subst x.
  replace (IZR mr * pow2 fe - y * pow2 fe) with ((IZR mr - y) * pow2 fe) by ring.
  rewrite Rabs_mult, (Rabs_pos_eq (pow2 fe)) by lra.
  assert (/ 2 <= y * pow2 (-53)).
  { replace (/ 2) with (pow2 52 * pow2 (-53)).
    - apply Rmult_le_compat_r; [pose proof (pow2_pos (-53))|]; lra.
    - rewrite <- pow2_add. change (52 + -53)%Z with (- (1))%Z.
      rewrite pow2_opp, pow2_1. lra. }
  pose proof (pow2_pos (-53)).
  pose proof (Rabs_pos (IZR mr - y)). nra.
Qed.

(** A rounding never crosses an integer, as long as integers are on the
    grid (below [2^53]). *)
Lemma rounds_integer_le x f n :
  rounds x f -> x < pow2 53 -> IZR n <= x -> IZR n <= F2R f.
Proof.
  intros (_ & fe & mr & -> & Hr & Hb) Hx Hn.
  pose proof (pow2_pos fe) as Hfe.
  assert (fe <= 0)%Z as Hfe0.
  { apply Rmult_div_bounds in Hb; [|done].
    assert (pow2 (52 + fe) < pow2 53) as H by (rewrite pow2_add; lra).
    apply pow2_lt_inv in H. lia. }
  assert (IZR n = IZR (n * 2 ^ (- fe)) * pow2 fe) as Hgrid.
  { rewrite mult_IZR, <- pow2_IZR by lia. rewrite pow2_opp. field. lra. }
  rewrite Hgrid in *. apply Rmult_le_compat_r; [lra|].
  apply IZR_le. apply Z.lt_succ_r, lt_IZR. rewrite succ_IZR.
  set (y := x / pow2 fe) in *.
  assert (IZR (n * 2 ^ (- fe)) <= y).
  { unfold y. apply Rmult_le_reg_r with (pow2 fe); [done|].
    replace (x / pow2 fe * pow2 fe) with x by (field; lra). lra. }
  apply Rabs_le_inv in Hr. lra.
Qed.

Lemma rounds_integer_ge x f n :
  rounds x f -> x < pow2 53 -> x <= IZR n -> F2R f <= IZR n.
Proof.
  intros (_ & fe & mr & -> & Hr & Hb) Hx Hn.
  pose proof (pow2_pos fe) as Hfe.
  assert (fe <= 0)%Z as Hfe0.
  { apply Rmult_div_bounds in Hb; [|done].
    assert (pow2 (52 + fe) < pow2 53) as H by (rewrite pow2_add; lra).
    apply pow2_lt_inv in H. lia. }
  assert (IZR n = IZR (n * 2 ^ (- fe)) * pow2 fe) as Hgrid.
  { rewrite mult_IZR, <- pow2_IZR by lia. rewrite pow2_opp. field. lra. }
  rewrite Hgrid in *. apply Rmult_le_compat_r; [lra|].
  apply IZR_le. apply Z.lt_succ_r, lt_IZR. rewrite succ_IZR.
  set (y := x / pow2 fe) in *.
  assert (y <= IZR (n * 2 ^ (- fe))).
  { unfold y. apply Rmult_le_reg_r with (pow2 fe); [done|].
    replace (x / pow2 fe * pow2 fe) with x by (field; lra). lra. }
  apply Rabs_le_inv in Hr. lra.
Qed.

Lemma rounds_integer x f n :
  rounds x f -> x < pow2 53 -> x = IZR n -> F2R f = IZR n.
Proof.
  intros Hr Hx ->. apply Rle_antisym.
  - by apply (rounds_integer_ge (IZR n)); [..|lra].
  - by apply (rounds_integer_le (IZR n)); [..|lra].
Qed.

(** *** Conversions to integers *)

Lemma shiftr_split (m k : Z) :
  (0 < k)%Z ->
  let q := Z.shiftr m k in
  let r := (m - Z.shiftl q k)%Z in
  (0 <= r < 2 ^ k)%Z /\ Z.shiftl 1 k = (2 ^ k)%Z
  /\ IZR m * pow2 (- k) = IZR q + IZR r / IZR (2 ^ k).
Proof.
  intros Hk. cbv zeta.
  rewrite Z.shiftr_div_pow2, !Z.shiftl_mul_pow2 by lia.
  assert (0 < 2 ^ k)%Z as HP by (apply Z.pow_pos_nonneg; lia).
  pose proof (Z.div_mod m (2 ^ k) ltac:(lia)) as Hdm.
  pose proof (Z.mod_pos_bound m (2 ^ k) HP) as Hmod.
  rewrite pow2_opp, pow2_IZR by lia.
  assert (0 < IZR (2 ^ k)) as HPR by (by apply IZR_lt).
  set (P := (2 ^ k)%Z) in *. set (q := (m / P)%Z) in *.
  set (r := (m mod P)%Z) in *. clearbody q r P.
  replace (m - q * P)%Z with r by lia.
  split; [lia|]. split; [lia|].
  rewrite Hdm, plus_IZR, mult_IZR. field. lra.
Qed.

(** [int(x)] is the integer part of a positive double. *)
Lemma int_value f :
  normal f -> exists n, Py.int f = Some n /\ IZR n <= F2R f < IZR n + 1.
Proof.
  intros (m & e & -> & Hm & He). cbn [Py.int F2R Py.cond_opp].
  eexists. split; [reflexivity|].
  destruct (Z.leb_spec 0 e) as [Hle|Hlt].
  - rewrite Z.shiftl_mul_pow2, mult_IZR, <- pow2_IZR by lia. lra.
  - destruct (shiftr_split (Zpos m) (- e) ltac:(lia)) as ([Hr0 Hr1] & _ & Hv).
    rewrite Z.opp_involutive in Hv. rewrite Hv.
    assert (0 < 2 ^ (- e))%Z as HP by (apply Z.pow_pos_nonneg; lia).
    apply IZR_lt in HP. apply IZR_le in Hr0. apply IZR_lt in Hr1.
    set (P := IZR (2 ^ (- e))) in *. set (r := IZR (Zpos m - _)) in *.
    assert (0 <= r / P < 1).
    { apply Rdiv_bounds; lra. }
    lra.
Qed.

(** [round(x)] is an integer at most one half away from [x]. *)
Lemma round_value f :
  normal f -> exists n, Py.round f = Some n /\ Rabs (IZR n - F2R f) <= / 2.
Proof.
  intros (m & e & -> & Hm & He). cbn [Py.round F2R Py.cond_opp].
  eexists. split; [reflexivity|].
  destruct (Z.leb_spec 0 e) as [Hle|Hlt].
  - rewrite Z.shiftl_mul_pow2, mult_IZR, <- pow2_IZR by lia.
    apply Rabs_le. lra.
  - destruct (shiftr_split (Zpos m) (- e) ltac:(lia)) as ([Hr0 Hr1] & Hs & Hv).
    rewrite Z.opp_involutive in Hv. rewrite Hv, Hs. cbv zeta.
    assert (0 < 2 ^ (- e))%Z as HP by (apply Z.pow_pos_nonneg; lia).
    set (q := Z.shiftr (Zpos m) (- e)) in *.
    set (r := (Zpos m - Z.shiftl q (- e))%Z) in *.
    assert (0 < IZR (2 ^ (- e))) as HPR by (by apply IZR_lt).
    assert (IZR r = IZR r / IZR (2 ^ (- e)) * IZR (2 ^ (- e))) as Hrr by (field; lra).
    set (t := IZR r / IZR (2 ^ (- e))) in *.
    destruct (Z.compare_spec (2 * r) (2 ^ (- e))) as [Heq|Hlt'|Hgt].
    + apply (f_equal IZR) in Heq. rewrite mult_IZR in Heq.
      assert (t = / 2) by nra.
      destruct (Z.even q); rewrite ?plus_IZR; apply Rabs_le; lra.
    + apply IZR_lt in Hlt'. rewrite mult_IZR in Hlt'.
      apply IZR_le in Hr0. apply Rabs_le. split; nra.
    + apply IZR_lt in Hgt. rewrite mult_IZR in Hgt.
      apply IZR_lt in Hr1. rewrite plus_IZR. apply Rabs_le. split; nra.
Qed.

(** *** The operations *)

Lemma pos_iter_xO (p d : positive) :
  Zpos (Pos.iter xO p d) = (Zpos p * 2 ^ Zpos d)%Z.
Proof.
  apply (Pos.iter_ind _ xO p (fun d r => Zpos r = (Zpos p * 2 ^ Zpos d)%Z)).
  - lia.
  - intros d' r IH. rewrite Pos2Z.inj_succ, Z.pow_succ_r by lia. lia.
Qed.

Lemma checked_rounds x f : rounds x f -> Py.checked f = Some f.
Proof. by intros [(m & e & -> & _) _]. Qed.

(** [float(n)] is [n] rounded, or raises for an [n] of [2^1023] or more. *)
Lemma float_of_int_spec (n : Z) :
  (0 < n)%Z ->
  match Py.float_of_int n with
  | Some f => rounds (IZR n) f
  | None => pow2 1023 <= IZR n
  end.
Proof.
  intros Hn0. destruct n as [|p|p]; [lia| |lia].
  unfold Py.float_of_int, Py.prec, Py.emax.
  cbn [binary_normalize]. unfold binary_round.
  pose proof (digits2_bounds p) as Hdig.
  rewrite fexp_normal by lia.
  assert (exists mz ez,
    shl_align p 0 (Zpos (digits2_pos p) + 0 - 53) = (mz, ez)
    /\ (53 <= Zdigits2 (Zpos mz))%Z /\ IZR (Zpos p) = IZR (Zpos mz) * pow2 ez)
    as (mz & ez & Hsh & Hd & Hv).
  { unfold shl_align.
    destruct (Zpos (digits2_pos p) + 0 - 53 - 0)%Z as [|k|k] eqn:Hk.
    - exists p, 0%Z. split; [done|]. split; [simpl; lia|]. rewrite pow2_0. lra.
    - exists p, 0%Z. split; [done|]. split; [simpl; lia|]. rewrite pow2_0. lra.
    - eexists _, _. split; [done|].
      assert (Zpos (Pos.iter xO p k) = Zpos p * 2 ^ Zpos k)%Z as Hit
        by apply pos_iter_xO.
      split.
      + rewrite (Zdigits2_unique _ 53); [lia|lia|]. rewrite Hit.
        change (53 - 1)%Z with 52%Z.
        assert (2 ^ 52 = 2 ^ (Zpos (digits2_pos p) - 1) * 2 ^ Zpos k)%Z as ->
          by (rewrite <- Z.pow_add_r by lia; f_equal; lia).
        assert (2 ^ 53 = 2 ^ Zpos (digits2_pos p) * 2 ^ Zpos k)%Z as ->
          by (rewrite <- Z.pow_add_r by lia; f_equal; lia).
        assert (0 < 2 ^ Zpos k)%Z by (apply Z.pow_pos_nonneg; lia).
        split; [apply Z.mul_le_mono_nonneg_r|apply Z.mul_lt_mono_pos_r]; lia.
      + rewrite Hit, mult_IZR, <- pow2_IZR by lia.
        replace (Zpos (digits2_pos p) + 0 - 53)%Z with (- Zpos k)%Z by lia.
        rewrite pow2_opp. pose proof (pow2_pos (Zpos k)). field. lra. }
  rewrite Hsh.
  destruct (round_aux_rounds (Zpos mz) ez loc_Exact (IZR (Zpos p)))
    as [Hr|[Hinf Hov]]; [lia|done| | | |].
  - unfold loc; cbn [shr_record_of_loc shr_r shr_s shr_m].
    rewrite Hv. pose proof (pow2_pos ez). field. lra.
  - apply Rle_trans with 1; [|apply IZR_le; lia].
    rewrite <- pow2_0. apply pow2_le. lia.
  - by rewrite (checked_rounds _ _ Hr).
  - by rewrite Hinf.
Qed.

Lemma ratio_half (r b : R) :
  0 < b ->
  (2 * r < b -> r / b < / 2) /\ (2 * r = b -> r / b = / 2)
  /\ (b < 2 * r -> / 2 < r / b) /\ (0 < r -> 0 < r / b)
  /\ (r < b -> r / b < 1) /\ (r = 0 -> r / b = 0).
Proof.
  intros Hb.
  assert (forall c, r < c * b -> r / b < c) as Hlt.
  { intros c Hc. apply Rmult_lt_reg_r with b; [done|].
    replace (r / b * b) with r by (field; lra). done. }
  assert (forall c, c * b < r -> c < r / b) as Hgt.
  { intros c Hc. apply Rmult_lt_reg_r with b; [done|].
    replace (r / b * b) with r by (field; lra). done. }
  repeat split.
  - intros H. apply Hlt. lra.
  - intros H. replace r with (b / 2) by lra. field. lra.
  - intros H. apply Hgt. lra.
  - intros H. apply Hgt. lra.
  - intros H. apply Hlt. lra.
  - intros ->. field. lra.
Qed.

(** The location computed from the remainder of a division. *)
Lemma new_location_correct (q b r : Z) :
  (0 <= r < b)%Z ->
  loc (IZR q + IZR r / IZR b) (shr_record_of_loc q (new_location b r)).
Proof.
  intros [Hr0 Hr1].
  assert (0 < IZR b) as Hb by (apply IZR_lt; lia).
  destruct (ratio_half (IZR r) (IZR b) Hb) as (Hlt & Heq & Hgt & Hpos & H1 & H0).
  apply IZR_lt in Hr1. specialize (H1 Hr1).
  unfold new_location.
  destruct (Z.even b) eqn:Heven;
    unfold new_location_even, new_location_odd;
    (destruct (Z.eqb_spec r 0) as [Hz|Hne];
     [rewrite H0 by (by rewrite Hz); unfold loc; simpl; lra|]);
    assert (0 < IZR r) as Hrpos by (apply IZR_lt; lia);
    specialize (Hpos Hrpos).
  - destruct (Z.compare_spec (2 * r) b) as [He|Hl|Hg];
      unfold loc; cbn [shr_record_of_loc shr_r shr_s shr_m].
    + apply (f_equal IZR) in He. rewrite mult_IZR in He. rewrite Heq; lra.
    + apply IZR_lt in Hl. rewrite mult_IZR in Hl. specialize (Hlt Hl). lra.
    + apply IZR_lt in Hg. rewrite mult_IZR in Hg. specialize (Hgt Hg). lra.
  - assert (2 * r <> b)%Z as Hodd.
    { intros <-. rewrite Z.even_mul in Heven. done. }
    destruct (Z.compare_spec (2 * r + 1) b) as [He|Hl|Hg];
      unfold loc; cbn [shr_record_of_loc shr_r shr_s shr_m].
    + assert (2 * r < b)%Z as Hl by lia.
      apply IZR_lt in Hl. rewrite mult_IZR in Hl. specialize (Hlt Hl). lra.
    + assert (2 * r < b)%Z as Hl' by lia.
      apply IZR_lt in Hl'. rewrite mult_IZR in Hl'. specialize (Hlt Hl'). lra.
    + assert (b < 2 * r)%Z as Hg' by lia.
      apply IZR_lt in Hg'. rewrite mult_IZR in Hg'. specialize (Hgt Hg'). lra.
Qed.

Lemma Zdigits2_ge (q k : Z) : (0 <= k)%Z -> (2 ^ k <= q)%Z -> (k + 1 <= Zdigits2 q)%Z.
Proof.
  intros Hk Hq.
  assert (0 < 2 ^ k)%Z by (apply Z.pow_pos_nonneg; lia).
  destruct (Zdigits2_bounds q ltac:(lia)) as [[_ Hb] Hd].
  destruct (Z_lt_le_dec k (Zdigits2 q)) as [|Hle]; [lia|].
  assert (2 ^ Zdigits2 q <= 2 ^ k)%Z by (apply Z.pow_le_mono_r; lia). lia.
Qed.

(** The quotient of two mantissas: at least 53 bits and the right
    location. *)
Lemma div_core_correct (m1 e1 m2 e2 : Z) :
  (0 < m1)%Z -> (0 < m2)%Z ->
  (-1074 <= Zdigits2 m1 + e1 - (Zdigits2 m2 + e2) - 53)%Z ->
  exists q e' l,
    SFdiv_core_binary 53 1024 m1 e1 m2 e2 = (q, e', l)
    /\ (0 < q)%Z /\ (53 <= Zdigits2 q)%Z
    /\ loc (IZR m1 * pow2 e1 / (IZR m2 * pow2 e2) / pow2 e')
           (shr_record_of_loc q l).
Proof.
  intros Hm1 Hm2 Hn.
  destruct (Zdigits2_bounds m1 Hm1) as [Hd1 Hd1'].
  destruct (Zdigits2_bounds m2 Hm2) as [Hd2 Hd2'].
  unfold SFdiv_core_binary.
  set (d1 := Zdigits2 m1) in *. set (d2 := Zdigits2 m2) in *.
  rewrite fexp_normal by lia.
  set (e' := Z.min (d1 + e1 - (d2 + e2) - 53) (e1 - e2)).
  set (s := (e1 - e2 - e')%Z).
  assert (0 <= s)%Z as Hs by lia.
  assert (52 <= d1 - 1 + s - d2)%Z as HK by lia.
  assert (match s with
          | 0%Z => m1 | Zpos _ => Z.shiftl m1 s | Zneg _ => 0%Z
          end = m1 * 2 ^ s)%Z as ->.
  { destruct s as [|k|k] eqn:Hsk; [lia| |lia].
    by rewrite Z.shiftl_mul_pow2. }
  pose proof (Z_div_mod (m1 * 2 ^ s) m2 ltac:(lia)) as Hdm.
  destruct (Z.div_eucl (m1 * 2 ^ s) m2) as [q r]. destruct Hdm as [Hdm Hr].
  assert (2 ^ (d1 - 1 + s - d2) <= q)%Z as Hq.
  { assert (2 ^ (d1 - 1) * 2 ^ s = 2 ^ d2 * 2 ^ (d1 - 1 + s - d2))%Z as Hp.
    { rewrite <- !Z.pow_add_r by lia. f_equal. lia. }
    assert (0 < 2 ^ s)%Z by (apply Z.pow_pos_nonneg; lia).
    assert (0 < 2 ^ (d1 - 1 + s - d2))%Z by (apply Z.pow_pos_nonneg; lia).
    assert (2 ^ (d1 - 1) * 2 ^ s <= m1 * 2 ^ s)%Z
      by (apply Z.mul_le_mono_nonneg_r; lia).
    destruct (Z_lt_le_dec q (2 ^ (d1 - 1 + s - d2))) as [Hlt|]; [|done].
    assert (m2 * (q + 1) <= m2 * 2 ^ (d1 - 1 + s - d2))%Z
      by (apply Z.mul_le_mono_nonneg_l; lia).
    assert (m2 * 2 ^ (d1 - 1 + s - d2) <= 2 ^ d2 * 2 ^ (d1 - 1 + s - d2))%Z
      by (apply Z.mul_le_mono_nonneg_r; lia).
    lia. }
  assert (2 ^ 52 <= 2 ^ (d1 - 1 + s - d2))%Z by (apply Z.pow_le_mono_r; lia).
  exists q, e', (new_location m2 r).
  split; [done|]. split; [lia|].
  split; [apply (Zdigits2_ge q 52); lia|].
  replace (IZR m1 * pow2 e1 / (IZR m2 * pow2 e2) / pow2 e')
    with (IZR q + IZR r / IZR m2); [by apply new_location_correct|].
  assert (0 < IZR m2) by (by apply IZR_lt).
  assert (IZR m1 * pow2 s = IZR m2 * IZR q + IZR r) as Hv.
  { rewrite pow2_IZR, <- !mult_IZR, <- plus_IZR by lia. by f_equal. }
  assert (pow2 e1 = pow2 s * pow2 e2 * pow2 e') as ->.
  { rewrite <- !pow2_add. f_equal. lia. }
  pose proof (pow2_pos e2). pose proof (pow2_pos e').
  replace (IZR m1 * (pow2 s * pow2 e2 * pow2 e') / (IZR m2 * pow2 e2) / pow2 e')
    with (IZR m1 * pow2 s / IZR m2) by (field; lra).
  rewrite Hv. field. lra.
Qed.

(** [a / b] on positive integers is the quotient rounded. *)
Lemma int_truediv_spec (a b : Z) :
  (0 < a)%Z -> (0 < b)%Z ->
  pow2 (-1020) <= IZR a / IZR b ->
  match Py.int_truediv a b with
  | Some f => rounds (IZR a / IZR b) f
  | None => pow2 1023 <= IZR a / IZR b
  end.
Proof.
  intros Ha Hb Hx.
  destruct (Zdigits2_bounds a Ha) as [Hd1 Hd1'].
  destruct (Zdigits2_bounds b Hb) as [Hd2 Hd2'].
  assert (0 < IZR b) as HbR by (by apply IZR_lt).
  assert (-1020 <= Zdigits2 a - Zdigits2 b)%Z as Hn.
  { assert (IZR a / IZR b < pow2 (Zdigits2 a - Zdigits2 b + 1)) as H.
    { apply Rdiv_bounds with (a := 0); [done|]. split.
      - rewrite Rmult_0_l. apply IZR_le. lia.
      - pose proof (IZR_pow2_lt a (Zdigits2 a) ltac:(lia) ltac:(lia)).
        pose proof (IZR_pow2_le b (Zdigits2 b - 1) ltac:(lia) ltac:(lia)).
        pose proof (pow2_pos (Zdigits2 a - Zdigits2 b + 1)).
        assert (pow2 (Zdigits2 a)
                = pow2 (Zdigits2 a - Zdigits2 b + 1) * pow2 (Zdigits2 b - 1)) as Hp.
        { rewrite <- pow2_add. f_equal. lia. }
        nra. }
    assert (pow2 (-1020) < pow2 (Zdigits2 a - Zdigits2 b + 1)) as H' by lra.
    apply pow2_lt_inv in H'. lia. }
  destruct (div_core_correct a 0 b 0 Ha Hb ltac:(lia)) as (q & e' & l & Hc & Hq & Hdq & Hloc).
  rewrite pow2_0, !Rmult_1_r in Hloc.
  unfold Py.int_truediv, Py.prec, Py.emax.
  destruct a as [|pa|pa]; [lia| |lia]. destruct b as [|pb|pb]; [lia| |lia].
  cbn [Z.ltb Z.compare xorb]. change (Z.abs (Zpos pa)) with (Zpos pa).
  change (Z.abs (Zpos pb)) with (Zpos pb). rewrite Hc.
  destruct (round_aux_rounds q e' l _ Hq Hdq Hloc) as [Hr|[Hinf Hov]].
  - apply Rle_trans with (pow2 (-1020)); [apply pow2_le; lia|lra].
  - by rewrite (checked_rounds _ _ Hr).
  - by rewrite Hinf.
Qed.

(** [x * y] on normal doubles is the product rounded, or an infinity. *)
Lemma float_mul_spec (f g : Py.float) :
  normal f -> normal g ->
  pow2 (-1022) <= F2R f * F2R g ->
  rounds (F2R f * F2R g) (Py.float_mul f g)
  \/ (Py.float_mul f g = S754_infinity false /\ pow2 1023 <= F2R f * F2R g).
Proof.
  intros (mf & ef & -> & Hmf & Hef) (mg & eg & -> & Hmg & Heg) Hx.
  cbn [F2R Py.cond_opp] in *.
  unfold Py.float_mul, Py.prec, Py.emax. cbn [SFmul xorb].
  apply round_aux_rounds; [lia| | |done].
  - apply (Zdigits2_ge _ 52); [lia|]. rewrite Pos2Z.inj_mul.
    change (2 ^ 52)%Z with (2 ^ 26 * 2 ^ 26)%Z. nia.
  - unfold loc; cbn [shr_record_of_loc shr_r shr_s shr_m].
    rewrite Pos2Z.inj_mul, mult_IZR, pow2_add.
    pose proof (pow2_pos ef). pose proof (pow2_pos eg). field. lra.
Qed.

(** [x / y] on normal doubles is the quotient rounded, or an infinity. *)
Lemma float_truediv_spec (f g : Py.float) :
  normal f -> normal g ->
  pow2 (-1020) <= F2R f / F2R g ->
  exists h, Py.float_truediv f g = Some h
    /\ (rounds (F2R f / F2R g) h
        \/ (h = S754_infinity false /\ pow2 1023 <= F2R f / F2R g)).
Proof.
  intros Hf Hg Hx.
  destruct (normal_F2R f Hf) as (mf & ef & -> & Hvf & Hbf & Hmf & Hef).
  destruct (normal_F2R g Hg) as (mg & eg & -> & Hvg & Hbg & Hmg & Heg).
  assert (Zdigits2 (Zpos mf) = 53%Z) as Hdf by (apply Zdigits2_unique; lia).
  assert (Zdigits2 (Zpos mg) = 53%Z) as Hdg by (apply Zdigits2_unique; lia).
  assert (-1021 <= ef - eg)%Z as Hn.
  { assert (F2R (S754_finite false mf ef) / F2R (S754_finite false mg eg)
            < pow2 (ef - eg + 1)) as H.
    { pose proof (pow2_pos (eg + 52)). pose proof (pow2_pos (ef + 52)).
      apply Rdiv_bounds with (a := 0); [lra|]. split; [lra|].
      assert (pow2 (ef + 53) = pow2 (ef - eg + 1) * pow2 (eg + 52)) as Hp.
      { rewrite <- pow2_add. f_equal. lia. }
      pose proof (pow2_pos (ef - eg + 1)). nra. }
    assert (pow2 (-1020) < pow2 (ef - eg + 1)) as H' by lra.
    apply pow2_lt_inv in H'. lia. }
  rewrite Hvf, Hvg in Hx |- *.
  destruct (div_core_correct (Zpos mf) ef (Zpos mg) eg) as (q & e' & l & Hc & Hq & Hdq & Hloc);
    [lia|lia|lia|].
  eexists. split.
  - unfold Py.float_truediv, Py.prec, Py.emax. cbn [SFdiv xorb].
    rewrite Hc. reflexivity.
  - apply round_aux_rounds; [done|done|done|].
    apply Rle_trans with (pow2 (-1020)); [apply pow2_le; lia|lra].
Qed.

(** *** Bounds used for the mapping *)

Lemma Rdiv_le_l (a y u : R) : 0 < u -> a * u <= y -> a <= y / u.
Proof.
  intros Hu H. apply Rmult_le_reg_r with u; [done|].
  replace (y / u * u) with y by (field; lra). done.
Qed.

Lemma Rdiv_le_r (b y u : R) : 0 < u -> y <= b * u -> y / u <= b.
Proof.
  intros Hu H. apply Rmult_le_reg_r with u; [done|].
  replace (y / u * u) with y by (field; lra). done.
Qed.

Lemma u53_bounds : 0 < u53 <= / 9007199254740992.
Proof.
  unfold u53. split; [apply pow2_pos|].
  change (-53)%Z with (- (53))%Z. rewrite pow2_opp, pow2_IZR by lia.
  change (2 ^ 53)%Z with 9007199254740992%Z. lra.
Qed.

Lemma rounds_interval x f :
  rounds x f -> x * (1 - u53) <= F2R f <= x * (1 + u53).
Proof.
  intros H. apply rounds_error in H. apply Rabs_le_inv in H.
  unfold u53. lra.
Qed.

Lemma rounds_normal x f : rounds x f -> normal f.
Proof. by intros [H _]. Qed.

Lemma pow2_m1020_small : pow2 (-1020) <= / 9007199254740992.
Proof.
  apply Rle_trans with (pow2 (-53)); [apply pow2_le; lia|].
  apply u53_bounds.
Qed.

Lemma pow2_1023_big : 9007199254740992 <= pow2 1023.
Proof.
  apply Rle_trans with (pow2 53); [|apply pow2_le; lia].
  rewrite pow2_IZR by lia. change (2 ^ 53)%Z with 9007199254740992%Z. lra.
Qed.

(** [float(100)], [float(65535)] and the like: small integers convert
    exactly. *)
Lemma float_of_small_int (n : Z) :
  (0 < n < 2 ^ 53)%Z ->
  exists f, Py.float_of_int n = Some f /\ normal f /\ F2R f = IZR n.
Proof.
  intros Hn. pose proof (float_of_int_spec n ltac:(lia)) as H.
  assert (IZR n < pow2 53) as Hlt.
  { rewrite pow2_IZR by lia. apply IZR_lt. lia. }
  destruct (Py.float_of_int n) as [f|].
  - exists f. split; [done|]. split; [by apply rounds_normal in H|].
    by apply (rounds_integer (IZR n)).
  - pose proof (pow2_le 53 1023 ltac:(lia)). lra.
Qed.

(** *** [int((a / b) * 100)] *)

(** [int((k / S) * 100)] is the integer part of [100*k/S], or one less
    when [100*k/S] is a whole number: the two roundings move the product by
    less than [1/S]. *)
Lemma percentage_of_step_bounds (steps k : Z) :
  (1 <= k <= steps)%Z -> (steps <= 2 ^ 40)%Z ->
  exists pct, percentage_of_step steps k = Some pct
    /\ (100 * k / steps - 1 <= pct <= 100 * k / steps)%Z
    /\ ((100 * k) mod steps <> 0 -> pct = 100 * k / steps)%Z.
Proof.
  intros [Hk1 Hk2] HS.
  assert (1 <= IZR k) as HkR by (apply IZR_le; lia).
  assert (0 < IZR steps) as HSR by (apply IZR_lt; lia).
  assert (IZR k <= IZR steps) as HkS by (apply IZR_le; lia).
  assert (IZR steps <= 1099511627776) as HSb.
  { change 1099511627776 with (IZR (2 ^ 40)). by apply IZR_le. }
  pose proof u53_bounds as Hu. pose proof pow2_m1020_small as Hsmall.
  pose proof pow2_1023_big as Hbig.
  set (x1 := IZR k / IZR steps).
  assert (/ 1099511627776 <= x1 <= 1) as Hx1.
  { unfold x1. split; [apply Rdiv_le_l|apply Rdiv_le_r]; lra. }
  unfold percentage_of_step.
  pose proof (int_truediv_spec k steps ltac:(lia) ltac:(lia) ltac:(fold x1; lra)) as Hy.
  fold x1 in Hy.
  destruct (Py.int_truediv k steps) as [y|]; [|lra]. cbn [mbind option_bind].
  pose proof (rounds_interval _ _ Hy) as Hyi. apply rounds_normal in Hy.
  destruct (float_of_small_int 100 ltac:(lia)) as (c & Hc & Hcn & Hcv).
  unfold Py.float_int_mul. rewrite Hc. cbn [mbind option_bind].
  assert (pow2 (-1022) <= F2R y * F2R c) as Hlow.
  { apply Rle_trans with (pow2 (-1020)); [apply pow2_le; lia|]. rewrite Hcv. nra. }
  destruct (float_mul_spec y c Hy Hcn Hlow) as [Hz|[_ Hov]];
    [|rewrite Hcv in Hov; nra].
  pose proof (rounds_interval _ _ Hz) as Hzi. apply rounds_normal in Hz.
  destruct (int_value _ Hz) as (pct & Hpct & Hfloor).
  rewrite Hpct. exists pct. split; [done|].
  set (vz := F2R (Py.float_mul y c)) in *. rewrite Hcv in Hzi.
  set (vy := F2R y) in *.
  (* exact quotient *)
  pose proof (Z.div_mod (100 * k) steps ltac:(lia)) as Hdm.
  pose proof (Z.mod_pos_bound (100 * k) steps ltac:(lia)) as Hmod.
  set (n0 := (100 * k / steps)%Z) in *. set (rr := ((100 * k) mod steps)%Z) in *.
  assert (100 * x1 = IZR n0 + IZR rr / IZR steps) as Hx0.
  { unfold x1. apply (f_equal IZR) in Hdm.
    rewrite plus_IZR, !mult_IZR in Hdm. field_simplify; [|lra|lra].
    rewrite Hdm. field. lra. }
  assert (100 * x1 - / 10000000000000 < vz < 100 * x1 + / 10000000000000) as Hvz.
  { clearbody vz vy x1. destruct Hu as [Hu0 Hu1].
    assert (x1 * u53 <= u53) as H1 by nra.
    assert (0 <= x1 * u53) as H2 by nra.
    assert (x1 * u53 * u53 <= u53) as H3 by nra.
    assert (0 <= x1 * u53 * u53) as H4 by nra.
    assert (vy * (1 + u53) <= x1 * (1 + u53) * (1 + u53)) as H5
      by (apply Rmult_le_compat_r; lra).
    assert (x1 * (1 - u53) * (1 - u53) <= vy * (1 - u53)) as H6
      by (apply Rmult_le_compat_r; lra).
    split; lra. }
  assert (/ IZR steps >= / 1099511627776) as Hinv
    by (apply Rle_ge, Rinv_le_contravar; lra).
  assert (0 < / IZR steps) as Hinv0 by (apply Rinv_0_lt_compat; lra).
  assert (IZR steps * / IZR steps = 1) as Hinv1 by (field; lra).
  assert (IZR rr / IZR steps = IZR rr * / IZR steps) as Hfeq by (field; lra).
  assert (0 <= IZR rr) as Hrr0 by (apply IZR_le; lia).
  assert (IZR rr <= IZR steps - 1) as Hrr1
    by (rewrite <- minus_IZR; apply IZR_le; lia).
  assert (0 <= IZR rr / IZR steps <= 1 - / 1099511627776) as Hfrac.
  { rewrite Hfeq. split; nra. }
  split.
  - split.
    + assert (n0 - 2 < pct)%Z; [|lia]. apply lt_IZR. rewrite minus_IZR. lra.
    + assert (pct < n0 + 1)%Z; [|lia]. apply lt_IZR. rewrite plus_IZR. lra.
  - intros Hne.
    assert (/ 1099511627776 <= IZR rr / IZR steps) as Hfr.
    { assert (1 <= IZR rr) by (apply IZR_le; lia). rewrite Hfeq. nra. }
    assert (n0 - 1 < pct)%Z; [|assert (pct < n0 + 1)%Z; [|lia]].
    + apply lt_IZR. rewrite minus_IZR. lra.
    + apply lt_IZR. rewrite plus_IZR. lra.
Qed.

(** *** The encoder *)

(** [int((k * 65535) / S)] lies between the integer part of [k*65535/S]
    and 65535, and is that integer part as long as [k*65535] is below
    [2^53]. *)
Lemma analog_of_step_spec (steps k : Z) :
  (1 <= k <= steps)%Z -> IZR steps <= pow2 1025 ->
  exists v, analog_of_step steps k = Some v
    /\ (k * 65535 / steps <= v <= 65535)%Z
    /\ (k * 65535 < 2 ^ 53 -> v = k * 65535 / steps)%Z.
Proof.
  intros [Hk1 Hk2] HS.
  assert (1 <= IZR k) as HkR by (apply IZR_le; lia).
  assert (0 < IZR steps) as HSR by (apply IZR_lt; lia).
  assert (IZR k <= IZR steps) as HkS by (apply IZR_le; lia).
  pose proof u53_bounds as [Hu0 Hu1]. pose proof pow2_1023_big as Hbig.
  set (a := (k * 65535)%Z).
  assert (IZR a = IZR k * 65535) as Ha by (unfold a; by rewrite mult_IZR).
  set (x := IZR a / IZR steps).
  assert (0 < / IZR steps) as Hinv0 by (apply Rinv_0_lt_compat; lra).
  assert (IZR steps * / IZR steps = 1) as Hinv1 by (field; lra).
  assert (x = IZR a * / IZR steps) as Hxeq by (unfold x; field; lra).
  assert (65535 * / IZR steps <= x <= 65535) as Hx.
  { rewrite Hxeq, Ha. split; nra. }
  assert (pow2 (-1020) <= x) as Hlow.
  { apply Rle_trans with (65535 * / IZR steps); [|lra].
    pose proof (pow2_pos (-1020)) as HP.
    assert (pow2 (-1020) * pow2 1025 = 32) as HPQ.
    { rewrite <- pow2_add. change (-1020 + 1025)%Z with 5%Z.
      rewrite pow2_IZR by lia. change (2 ^ 5)%Z with 32%Z. lra. }
    assert (pow2 (-1020) * IZR steps <= 32) as HPS by nra.
    assert (pow2 (-1020) = pow2 (-1020) * IZR steps * / IZR steps) as ->
      by (field; lra).
    nra. }
  unfold analog_of_step. fold a.
  pose proof (int_truediv_spec a steps ltac:(lia) ltac:(lia) Hlow) as Hw.
  fold x in Hw.
  destruct (Py.int_truediv a steps) as [w|]; [|lra]. cbn [mbind option_bind].
  assert (x < pow2 53) as Hx53.
  { apply Rle_lt_trans with 65535; [lra|]. rewrite pow2_IZR by lia.
    change (2 ^ 53)%Z with 9007199254740992%Z. lra. }
  destruct (int_value w (rounds_normal _ _ Hw)) as (v & Hv & Hfloor).
  rewrite Hv. exists v. split; [done|].
  pose proof (Z.div_mod a steps ltac:(lia)) as Hdm.
  pose proof (Z.mod_pos_bound a steps ltac:(lia)) as Hmod.
  set (n0 := (a / steps)%Z) in *. set (rr := (a mod steps)%Z) in *.
  assert (x = IZR n0 + IZR rr * / IZR steps) as Hx0.
  { rewrite Hxeq, Hdm, plus_IZR, mult_IZR. field. lra. }
  assert (0 <= IZR rr) as Hrr0 by (apply IZR_le; lia).
  assert (IZR rr <= IZR steps - 1) as Hrr1
    by (rewrite <- minus_IZR; apply IZR_le; lia).
  assert (IZR n0 <= x) as Hn0 by (rewrite Hx0; nra).
  pose proof (rounds_integer_le x w n0 Hw Hx53 Hn0) as Hlo.
  pose proof (rounds_integer_ge x w 65535 Hw Hx53 ltac:(lra)) as Hhi.
  split.
  - split.
    + assert (n0 < v + 1)%Z; [|lia]. apply lt_IZR. rewrite plus_IZR. lra.
    + apply le_IZR. lra.
  - intros Hsmall.
    assert (n0 < v + 1)%Z by (apply lt_IZR; rewrite plus_IZR; lra).
    assert (v < n0 + 1)%Z; [|lia]. apply lt_IZR. rewrite plus_IZR.
    pose proof (rounds_interval _ _ Hw) as [_ Hup].
    assert (IZR a <= 9007199254740991) as Hab.
    { change 9007199254740991 with (IZR (2 ^ 53 - 1)). apply IZR_le. lia. }
    assert (0 <= IZR a) as Ha0 by (rewrite Ha; lra).
    assert (IZR a * u53 < 1) as Hau by nra.
    assert (x * u53 < / IZR steps) as Hxu.
    { rewrite Hxeq. replace (IZR a * / IZR steps * u53)
        with (IZR a * u53 * / IZR steps) by ring. nra. }
    assert (x <= IZR n0 + 1 - / IZR steps) as Hxup by (rewrite Hx0; nra).
    lra.
Qed.

(** The step of a percentage: in [1, S], large enough for a nonzero raw
    value, and the clamp of an integer nearest to [p*S/100]; it is computed
    unless the step count is beyond the range of doubles. *)
Lemma step_of_percentage_spec (steps p : Z) :
  (1 <= p <= 100)%Z -> (1 <= steps)%Z ->
  match step_of_percentage steps p with
  | Some k =>
      (1 <= k <= steps)%Z /\ (steps <= k * 65535)%Z
      /\ IZR steps <= pow2 1025
      /\ ((steps <= 2 ^ 44)%Z ->
          exists n, k = Z.max 1 (Z.min steps n)
            /\ (Z.abs (100 * n - p * steps) <= 50)%Z)
  | None => pow2 1000 <= IZR steps
  end.
Proof.
  intros [Hp1 Hp2] HS.
  assert (1 <= IZR p <= 100) as HpR by (split; apply IZR_le; lia).
  assert (1 <= IZR steps) as HSR by (apply IZR_le; lia).
  pose proof u53_bounds as [Hu0 Hu1]. pose proof pow2_1023_big as Hbig.
  pose proof pow2_m1020_small as Hsmall.
  set (x1 := IZR p / 100).
  assert (/ 100 <= x1 <= 1) as Hx1 by (unfold x1; lra).
  unfold step_of_percentage.
  pose proof (int_truediv_spec p 100 ltac:(lia) ltac:(lia) ltac:(fold x1; lra)) as Hy.
  fold x1 in Hy.
  destruct (Py.int_truediv p 100) as [y|]; [|lra]. cbn [mbind option_bind].
  pose proof (rounds_interval _ _ Hy) as Hyi. apply rounds_normal in Hy.
  set (vy := F2R y) in *.
  assert (/ 101 <= vy <= 101 / 100) as Hvy by (clearbody vy x1; split; nra).
  unfold Py.float_int_mul.
  pose proof (float_of_int_spec steps ltac:(lia)) as HfS.
  destruct (Py.float_of_int steps) as [fS|]; cbn [mbind option_bind];
    [|apply Rle_trans with (pow2 1023); [apply pow2_le; lia|done]].
  pose proof (rounds_interval _ _ HfS) as HfSi.
  set (vS := F2R fS) in *.
  assert (IZR steps * (99 / 100) <= vS <= IZR steps * (101 / 100)) as HvS
    by (clearbody vS; split; nra).
  assert (pow2 (-1022) <= vy * vS) as Hlow.
  { apply Rle_trans with (pow2 (-1020)); [apply pow2_le; lia|].
    clearbody vy vS. nra. }
  assert (IZR steps <= pow2 1025) as HSmax.
  { destruct (normal_F2R fS (rounds_normal _ _ HfS)) as (m & e & _ & _ & [_ Hup] & _ & He).
    fold vS in Hup.
    assert (pow2 (e + 53) <= pow2 1024) by (apply pow2_le; lia).
    assert (pow2 1025 = 2 * pow2 1024) as -> by (by rewrite <- pow2_succ).
    clearbody vS. lra. }
  destruct (float_mul_spec y fS Hy (rounds_normal _ _ HfS) Hlow) as [Hz|[-> Hov]].
  2:{ cbn [Py.round mbind option_bind]. fold vy vS in Hov.
      assert (pow2 1023 = 8388608 * pow2 1000) as Hp.
      { change 1023%Z with (23 + 1000)%Z. rewrite pow2_add, (pow2_IZR 23) by lia.
        change (2 ^ 23)%Z with 8388608%Z. lra. }
      pose proof (pow2_pos 1000). clearbody vy vS.
      assert (vy * vS <= 101 / 100 * (IZR steps * (101 / 100)))
        by (apply Rmult_le_compat; lra).
      lra. }
  fold vy vS in Hz.
  pose proof (rounds_interval _ _ Hz) as Hzi.
  destruct (round_value _ (rounds_normal _ _ Hz)) as (n & Hn & Hnear).
  rewrite Hn. cbn [mbind option_bind].
  set (vz := F2R (Py.float_mul y fS)) in *.
  apply Rabs_le_inv in Hnear.
  split; [lia|]. split; [|split; [done|]].
  - destruct (Z_le_gt_dec steps 65535) as [Hsm|Hbg]; [lia|].
    assert (65536 <= IZR steps) as HSbig by (apply IZR_le; lia).
    assert (/ 103 * IZR steps <= vz) as Hvz.
    { clearbody vz vy vS x1.
      assert (/ 101 * (IZR steps * (99 / 100)) <= vy * vS)
        by (apply Rmult_le_compat; lra).
      assert (vy * vS * u53 <= vy * vS * / 9007199254740992)
        by (apply Rmult_le_compat_l; lra).
      lra. }
    assert (steps <= 65535 * n)%Z as Hn65.
    { apply le_IZR. rewrite mult_IZR. lra. }
    lia.
  - intros HS44.
    assert (IZR steps <= 17592186044416) as HSb.
    { change 17592186044416 with (IZR (2 ^ 44)). by apply IZR_le. }
    assert (vS = IZR steps) as HvSeq.
    { apply (rounds_integer (IZR steps)); [done| |done].
      rewrite pow2_IZR by lia. apply IZR_lt. lia. }
    exists n. split; [done|].
    set (t := x1 * IZR steps).
    assert (Rabs (vz - t) <= / 128) as Herr.
    { unfold t. clearbody vz vy vS x1. subst vS. apply Rabs_le.
      assert (0 <= x1 * u53 <= u53) as H1 by nra.
      assert (u53 * IZR steps <= / 512) as H2.
      { apply Rle_trans with (/ 9007199254740992 * 17592186044416); [|lra].
        apply Rmult_le_compat; lra. }
      assert (Rabs (vy - x1) <= u53) as H3 by (apply Rabs_le; lra).
      apply Rabs_le_inv in H3.
      assert (Rabs (vy * IZR steps - x1 * IZR steps) <= / 512) as H4.
      { replace (vy * IZR steps - x1 * IZR steps) with ((vy - x1) * IZR steps) by ring.
        apply Rabs_le. split; nra. }
      apply Rabs_le_inv in H4.
      assert (0 <= vy * IZR steps <= 2 * IZR steps) as H5 by nra.
      assert (vy * IZR steps * u53 <= / 256) as H6 by nra.
      split; lra. }
    apply Rabs_le_inv in Herr.
    assert (100 * t = IZR (p * steps)) as Ht.
    { unfold t, x1. rewrite mult_IZR. field. }
    apply Z.abs_le. split.
    + assert (- 51 < 100 * n - p * steps)%Z; [|lia].
      apply lt_IZR. rewrite minus_IZR, mult_IZR, <- Ht. lra.
    + assert (100 * n - p * steps < 51)%Z; [|lia].
      apply lt_IZR. rewrite minus_IZR, mult_IZR, <- Ht. lra.
Qed.

(** *** The decoder *)

(** The step of a raw value is the clamp of the integer nearest to
    [r*S/65535]: the three roundings move the quotient by less than its
    distance to a half-integer, which is at least [1/131070]. *)
Lemma current_step_of_spec (steps r : Z) :
  (1 <= steps <= 2 ^ 32)%Z -> (1 <= r <= 65535)%Z ->
  current_step_of steps r
  = Some (Z.min steps (Z.max 1 (nearest_step steps r))).
Proof.
  intros [HS1 HS2] [Hr1 Hr2].
  assert (1 <= IZR steps <= 4294967296) as HSR.
  { change 4294967296 with (IZR (2 ^ 32)). split; apply IZR_le; lia. }
  assert (1 <= IZR r <= 65535) as HrR by (split; apply IZR_le; lia).
  pose proof u53_bounds as [Hu0 Hu1]. pose proof pow2_1023_big as Hbig.
  pose proof pow2_m1020_small as Hsmall.
  assert (0 < / IZR steps <= 1) as Hinv.
  { split; [apply Rinv_0_lt_compat; lra|].
    rewrite <- Rinv_1. apply Rinv_le_contravar; lra. }
  assert (IZR steps * / IZR steps = 1) as Hinv1 by (field; lra).
  assert (/ 4294967296 <= / IZR steps) as Hinv2
    by (apply Rinv_le_contravar; lra).
  set (x1 := 65535 / IZR steps).
  assert (x1 = 65535 * / IZR steps) as Hx1eq by (unfold x1; field; lra).
  assert (/ 70000 <= x1 <= 65535) as Hx1 by (rewrite Hx1eq; split; nra).
  unfold current_step_of.
  pose proof (int_truediv_spec 65535 steps ltac:(lia) ltac:(lia)
                ltac:(fold x1; lra)) as Hss.
  fold x1 in Hss.
  destruct (Py.int_truediv 65535 steps) as [ss|]; [|lra].
  cbn [mbind option_bind].
  pose proof (rounds_interval _ _ Hss) as Hssi. apply rounds_normal in Hss.
  set (vss := F2R ss) in *.
  destruct (float_of_small_int r ltac:(lia)) as (fr & Hfr & Hfrn & Hfrv).
  unfold Py.int_float_truediv. rewrite Hfr. cbn [mbind option_bind].
  assert (0 < vss) as Hvss0 by (clearbody vss; nra).
  set (x2 := IZR r / vss).
  assert (x2 * vss = IZR r) as Hx2 by (unfold x2; field; lra).
  set (t := IZR r * IZR steps / 65535).
  assert (t * x1 = IZR r) as Ht by (unfold t, x1; field; lra).
  assert (/ 65535 <= t <= 4294967296) as Htb.
  { unfold t. split; [|nra].
    apply Rle_trans with (1 * 1 / 65535); [lra|].
    apply Rmult_le_compat_r; [lra|]. nra. }
  assert (t * (1 - u53) <= x2 <= t * (1 + 2 * u53)) as Hx2b.
  { clearbody vss x1 x2 t. split.
    - assert (t <= x2 * (1 + u53)) as H.
      { apply Rmult_le_reg_r with x1; [lra|]. nra. }
      assert (t * (1 - u53) <= x2 * (1 + u53) * (1 - u53)) by nra.
      assert (0 < x2) by nra. nra.
    - assert (x2 * (1 - u53) <= t) as H.
      { apply Rmult_le_reg_r with x1; [lra|]. nra. }
      assert (0 < x2) by nra.
      assert (x2 * (1 - u53) * (1 + 2 * u53) <= t * (1 + 2 * u53)) by nra.
      nra. }
  assert (pow2 (-1020) <= F2R fr / F2R ss) as Hlow.
  { rewrite Hfrv. fold vss x2. clearbody x2 t. nra. }
  destruct (float_truediv_spec fr ss Hfrn Hss Hlow) as (x & Hx & [Hxr|[_ Hov]]).
  2:{ rewrite Hfrv in Hov. fold vss x2 in Hov. clearbody x2 t. nra. }
  rewrite Hx. cbn [mbind option_bind].
  rewrite Hfrv in Hxr. fold vss x2 in Hxr.
  pose proof (rounds_interval _ _ Hxr) as Hxi.
  destruct (round_value x (rounds_normal _ _ Hxr)) as (n & Hn & Hnear).
  rewrite Hn. cbn [mbind option_bind]. do 3 f_equal.
  set (vx := F2R x) in *. apply Rabs_le_inv in Hnear.
  assert (t - / 500000 <= vx <= t + / 500000) as Hvx.
  { clearbody vx x2 t vss x1.
    assert (0 <= t * u53 <= / 2097152) as H1.
    { split; [nra|].
      apply Rle_trans with (4294967296 * / 9007199254740992); [|lra].
      apply Rmult_le_compat; lra. }
    assert (0 <= x2 <= 2 * t) as H2 by nra.
    assert (0 <= x2 * u53 <= 2 * (t * u53)) as H3 by nra.
    split; lra. }
  (* the exact quotient *)
  unfold nearest_step.
  pose proof (Z.div_mod (2 * r * steps + 65535) 131070 ltac:(lia)) as Hdm.
  pose proof (Z.mod_pos_bound (2 * r * steps + 65535) 131070 ltac:(lia)) as Hmod.
  set (n0 := ((2 * r * steps + 65535) / 131070)%Z) in *.
  set (rho := ((2 * r * steps + 65535) mod 131070)%Z) in *.
  assert (1 <= rho <= 131069)%Z as Hrho.
  { assert (rho <> 0)%Z by lia. assert (rho <> 131070 - 0)%Z by lia. lia. }
  assert (131070 * t = 131070 * IZR n0 + IZR rho - 65535) as Hteq.
  { unfold t. apply (f_equal IZR) in Hdm.
    rewrite !plus_IZR, !mult_IZR in Hdm. lra. }
  assert (1 <= IZR rho <= 131069) as HrhoR by (split; apply IZR_le; lia).
  assert (n0 - 1 < n)%Z; [|assert (n < n0 + 1)%Z; [|lia]].
  - apply lt_IZR. rewrite minus_IZR. lra.
  - apply lt_IZR. rewrite plus_IZR. lra.
Qed.

(** Up to 32767 steps the raw value of step [k] is nearest to step [k]. *)
Lemma roundtrip_step (steps k : Z) :
  (1 <= k <= steps)%Z -> (steps <= 32767)%Z ->
  (1 <= k * 65535 / steps <= 65535)%Z
  /\ nearest_step steps (k * 65535 / steps) = k.
Proof.
  intros [Hk1 Hk2] HS.
  pose proof (Z.div_mod (k * 65535) steps ltac:(lia)) as Hdm.
  pose proof (Z.mod_pos_bound (k * 65535) steps ltac:(lia)) as Hmod.
  set (r := (k * 65535 / steps)%Z) in *. set (m := ((k * 65535) mod steps)%Z) in *.
  split; [nia|].
  unfold nearest_step. symmetry.
  apply Z.div_unique with (65535 - 2 * m)%Z; [lia|nia].
Qed.

Lemma IZR_lt_pow2_1000 (n : Z) : (n < 2 ^ 1000)%Z -> IZR n < pow2 1000.
Proof. intros H. rewrite pow2_IZR by lia. by apply IZR_lt. Qed.

Lemma IZR_le_pow2_1025 (n : Z) : (n < 2 ^ 1000)%Z -> IZR n <= pow2 1025.
Proof.
  intros H. apply IZR_lt_pow2_1000 in H.
  pose proof (pow2_le 1000 1025 ltac:(lia)). lra.
Qed.

End rounding.

(** ** Quotients that round the same *)

Section exact_quotients.
Local Open Scope R_scope.





End exact_quotients.

(** ** Hub lemmas *)

Lemma get_set_analog (hub : Hub.t) (join value : Z) :
  Hub.get_analog (Hub.set_analog hub join value) join = value.
Proof. unfold Hub.get_analog; simpl. by rewrite Z.eqb_refl. Qed.


Lemma get_set_digital (hub : Hub.t) (join : Z) (value : bool) :
  Hub.get_digital (Hub.set_digital hub join value) join = value.
Proof. unfold Hub.get_digital; simpl. by rewrite Z.eqb_refl. Qed.


(** ** Checking a property on a range of integers *)

Lemma range_all_spec (f : Z -> bool) (n : nat) : forall lo z,
  range_all f lo n = true -> lo <= z < lo + Z.of_nat n -> f z = true.
Proof.
  induction n as [|n IH]; intros lo z H Hz; [lia|].
  cbn [range_all] in H. apply andb_true_iff in H as [H1 H2].
  destruct (Z.eq_dec z lo) as [->|Hne]; [done|].
  apply (IH (lo + 1)); [done|lia].
Qed.

Lemma opt_eqb_eq (a b : option Z) : opt_eqb a b = true -> a = b.
Proof.
  destruct a as [a|], b as [b|]; cbn; try done.
  by intros ->%Z.eqb_eq.
Qed.

(** ** The encoder *)

Lemma analog_value_of_stepless (p : Z) :
  1 <= p <= 100 -> analog_value_of None p = Some (p * 65535 / 100).
Proof.
  intros Hp. apply opt_eqb_eq.
  apply (range_all_spec
           (fun p => opt_eqb (analog_value_of None p) (Some (p * 65535 / 100)))
           100 1); [by vm_compute|lia].
Qed.

Lemma analog_value_of_stepped (steps p : Z) :
  1 <= p <= 100 -> 1 <= steps ->
  match analog_value_of (Some steps) p with
  | Some v =>
      1 <= v <= 65535
      /\ (steps <= 2 ^ 37 ->
          exists n, Z.abs (100 * n - p * steps) <= 50
            /\ step_of_percentage steps p = Some (Z.max 1 (Z.min steps n))
            /\ v = Z.max 1 (Z.min steps n) * 65535 / steps)
  | None => (pow2 1000 <= IZR steps)%R
  end.
Proof.
  intros Hp HS. unfold analog_value_of.
  pose proof (step_of_percentage_spec steps p Hp HS) as Hk.
  destruct (step_of_percentage steps p) as [k|]; cbn [mbind option_bind];
    [|done].
  destruct Hk as (Hk & Hk65 & HSmax & Hnear).
  destruct (analog_of_step_spec steps k Hk HSmax) as (v & -> & Hv & Hex).
  split.
  - split; [|lia]. apply Z.le_trans with (k * 65535 / steps); [|lia].
    apply Z.div_le_lower_bound; lia.
  - intros HS37.
    destruct Hnear as (n & -> & Hn).
    { apply Z.le_trans with (2 ^ 37); [done|]. by apply Z.pow_le_mono_r. }
    exists n. split; [done|]. split; [done|]. apply Hex.
    apply Z.le_lt_trans with (2 ^ 37 * 65535); [|done].
    apply Z.mul_le_mono_nonneg_r; lia.
Qed.


(** ** The decoder *)

Lemma percentage_of_raw_stepped (steps r : Z) :
  r <> 0 ->
  percentage_of_raw (Some steps) r
  = (current_step ← current_step_of steps r;
     percentage_of_step steps current_step).
Proof. intros Hr. unfold percentage_of_raw. by rewrite (proj2 (Z.eqb_neq r 0)). Qed.

Lemma percentage_of_raw_stepless_step (r : Z) :
  r <> 0 ->
  percentage_of_raw None r
  = (n ← percentage_of_step 65535 r; Some (Z.max 1 (Z.min 100 n))).
Proof.
  intros Hr. unfold percentage_of_raw, percentage_of_step.
  rewrite (proj2 (Z.eqb_neq r 0)) by done.
  destruct (Py.int_truediv r 65535) as [y|]; cbn [mbind option_bind]; [|done].
  by destruct (Py.float_int_mul y 100).
Qed.

(** The raw values whose percentage is a whole number in stepless mode
    (the multiples of 13107) are decoded to that number. *)
Lemma stepless_whole_percentages :
  range_all
    (fun r => if (100 * r) mod 65535 =? 0
              then opt_eqb (percentage_of_step 65535 r)
                           (Some (100 * r / 65535))
              else true)
    1 (Z.to_nat 65535) = true.
Proof. by vm_compute. Qed.

Lemma percentage_of_step_65535 (r : Z) :
  1 <= r <= 65535 -> percentage_of_step 65535 r = Some (100 * r / 65535).
Proof.
  intros Hr.
  destruct (Z.eq_dec ((100 * r) mod 65535) 0) as [H0|Hne].
  - pose proof (range_all_spec _ _ _ r stepless_whole_percentages ltac:(lia)) as H.
    cbv beta in H. rewrite (proj2 (Z.eqb_eq _ _) H0) in H.
    by apply opt_eqb_eq.
  - destruct (percentage_of_step_bounds 65535 r) as (pct & -> & _ & Hex);
      [lia|done|]. by rewrite Hex.
Qed.

Lemma percentage_of_step_positive (steps k : Z) :
  1 <= k <= steps -> steps <= 100 ->
  exists pct, percentage_of_step steps k = Some pct /\ 1 <= pct <= 100.
Proof.
  intros Hk HS.
  destruct (percentage_of_step_bounds steps k Hk) as (pct & Hpct & Hb & Hex).
  { apply Z.le_trans with 100; [done|]. done. }
  exists pct. split; [done|].
  assert (1 <= 100 * k / steps) as H1 by (apply Z.div_le_lower_bound; lia).
  assert (100 * k / steps <= 100) as H2 by (apply Z.div_le_upper_bound; lia).
  split; [|lia].
  destruct (Z.eq_dec ((100 * k) mod steps) 0) as [H0|Hne]; [|rewrite Hex; done].
  destruct (Z.eq_dec (100 * k / steps) 1) as [Heq|]; [|lia].
  pose proof (Z.div_mod (100 * k) steps ltac:(lia)) as Hdm.
  rewrite H0, Heq in Hdm.
  assert (k = 1 /\ steps = 100) as [-> ->] by lia.
  assert (percentage_of_step 100 1 = Some 1) as Hone by (by vm_compute).
  rewrite Hone in Hpct. injection Hpct as <-. lia.
Qed.




Lemma int_truediv_zero (a : Z) : Py.int_truediv a 0 = None.
Proof. by destruct a. Qed.

Lemma analog_value_of_zero_steps (p : Z) : analog_value_of (Some 0) p = None.
Proof.
  unfold analog_value_of, step_of_percentage.
  destruct (Py.int_truediv p 100) as [y|]; [|done].
  cbn [mbind option_bind]. unfold Py.float_int_mul.
  change (Py.float_of_int 0) with (Some (S754_zero false)).
  cbn [mbind option_bind].
  destruct (Py.round (Py.float_mul y (S754_zero false))); [|done].
  cbn [mbind option_bind]. unfold analog_of_step.
  by rewrite int_truediv_zero.
Qed.

(** ** Claims on the speed mapping *)


(** Beyond 32767 steps two neighbouring steps can share a raw value's
    neighbourhood: with 32780 steps, step 3934 is written as 7864, which is
    read back as step 3933 and 11 percent instead of 12. *)
Lemma roundtrip_needs_few_steps :
  analog_of_step 32780 3934 = Some 7864
  /\ current_step_of 32780 7864 = Some 3933
  /\ percentage_of_raw (Some 32780) 7864 = Some 11
  /\ percentage_of_step 32780 3934 = Some 12.
Proof. by vm_compute. Qed.



(** A fan with four steps reads exactly 25, 50, 75 and 100 percent. *)
Lemma four_steps_read_quarters :
  percentage_of_raw (Some 4) (1 * 65535 / 4) = Some 25
  /\ percentage_of_raw (Some 4) (2 * 65535 / 4) = Some 50
  /\ percentage_of_raw (Some 4) (3 * 65535 / 4) = Some 75
  /\ percentage_of_raw (Some 4) (4 * 65535 / 4) = Some 100.
Proof. by vm_compute. Qed.

(** Where the product falls short the reading is one below the quotient,
    and setting it again selects the step below: with 50 steps the value of
    step 29 reads 57 percent, which is written as the value of step 28. *)
Lemma shortfall_drops_a_step :
  percentage_of_step 100 29 = Some 28
  /\ analog_of_step 50 29 = Some 38010
  /\ percentage_of_raw (Some 50) 38010 = Some 57
  /\ step_of_percentage 50 57 = Some 28
  /\ analog_value_of (Some 50) 57 = Some 36699.
Proof. by vm_compute. Qed.

(** C2, as stated, fails: the last conversion is [int], not [round].  In
    stepless mode 2 percent is written as 1310 ([(2/100)*65535 = 1310.7]),
    and with two steps 50 percent is written as 32767 ([65535/2 = 32767.5]),
    where the specification has 1311 and 32768. *)
Lemma encoder_rounded_counterexample :
  async_set_percentage stepless_fan 2 empty_hub
  = Some (Hub.set_analog empty_hub 7 1310)
  /\ Spec.analog_value_of None 2 = Some 1311
  /\ async_set_percentage (fan_with_steps 2) 50 empty_hub
     = Some (Hub.set_analog empty_hub 7 32767)
  /\ Spec.analog_value_of (Some 2) 50 = Some 32768.
Proof. by vm_compute. Qed.

(** C2, amended: for every percentage [p] in [1, 100],
    [async_set_percentage] sends one write to the speed join.  Stepless, its
    value is the integer part of [p*65535/100].  With [S] steps it is
    [int((k*65535)/S)] for [k = max(1, min(S, round((p/100)*S)))], in double
    arithmetic; for [S] up to [2^37] that is the integer part of
    [k*65535/S], where [k = clamp(n, 1, S)] and [n] is an integer nearest to
    [p*S/100]. *)
Theorem set_percentage_truncates (self : CrestronFan) (hub : Hub.t) (p : Z)
    (Hp : 1 <= p <= 100) :
  match _speed_steps self with
  | None =>
      async_set_percentage self p hub
      = Some (Hub.set_analog hub (_speed_join self) (p * 65535 / 100))
  | Some steps =>
      async_set_percentage self p hub
      = (k ← step_of_percentage steps p;
         v ← analog_of_step steps k;
         Some (Hub.set_analog hub (_speed_join self) v))
      /\ (1 <= steps <= 2 ^ 37 ->
          exists n,
            Z.abs (100 * n - p * steps) <= 50
            /\ step_of_percentage steps p = Some (Z.max 1 (Z.min steps n))
            /\ async_set_percentage self p hub
               = Some (Hub.set_analog hub (_speed_join self)
                         (Z.max 1 (Z.min steps n) * 65535 / steps)))
  end.
Proof.
  unfold async_set_percentage.
  rewrite (proj2 (Z.eqb_neq p 0)) by lia.
  destruct (_speed_steps self) as [steps|].
  - split.
    { unfold analog_value_of.
      by destruct (step_of_percentage steps p). }
    intros [HS1 HS2].
    pose proof (analog_value_of_stepped steps p Hp HS1) as H.
    destruct (analog_value_of (Some steps) p) as [v|].
    + destruct H as (_ & n & Hn & Hk & ->); [done|]. by exists n.
    + exfalso. apply (Rlt_irrefl (pow2 1000)).
      apply Rle_lt_trans with (IZR steps); [done|].
      apply IZR_lt_pow2_1000. apply Z.le_lt_trans with (2 ^ 37); [done|done].
  - by rewrite analog_value_of_stepless.
Qed.

Lemma set_percentage_truncates_witness :
  async_set_percentage fan_with_reverse 50 empty_hub
  = (k ← step_of_percentage 3 50;
     v ← analog_of_step 3 k;
     Some (Hub.set_analog empty_hub 7 v))
  /\ exists n,
       Z.abs (100 * n - 50 * 3) <= 50
       /\ step_of_percentage 3 50 = Some (Z.max 1 (Z.min 3 n))
       /\ async_set_percentage fan_with_reverse 50 empty_hub
          = Some (Hub.set_analog empty_hub 7
                    (Z.max 1 (Z.min 3 n) * 65535 / 3)).
Proof.
  destruct (set_percentage_truncates fan_with_reverse empty_hub 50)
    as [H1 H2]; [lia|].
  split; [exact H1|]. apply H2. split; [lia|done].
Defined.




(** C5 fails on the code for more than 100 steps: with 101 steps 1 percent
    is written as raw value 648 (step 1), which the decoder reads as 0
    percent, so that the running fan is reported off. *)
Theorem decoder_zero_for_step_one :
  analog_value_of (Some 101) 1 = Some 648
  /\ current_step_of 101 648 = Some 1
  /\ percentage_of_raw (Some 101) 648 = Some 0
  /\ is_on (fan_with_steps 101) (Hub.analog_changed empty_hub 7 648)
     = Some false.
Proof. by vm_compute. Qed.

(** Up to 100 steps, and in stepless mode, the decoder bounds hold: raw 0
    reads 0 and every raw value in [1, 65535] reads a percentage in
    [1, 100]. *)
Lemma decoder_bounds (speed_steps : option Z) (r : Z) :
  match speed_steps with Some steps => 1 <= steps <= 100 | None => True end ->
  percentage_of_raw speed_steps 0 = Some 0
  /\ (1 <= r <= 65535 ->
      exists pct, percentage_of_raw speed_steps r = Some pct
                  /\ 1 <= pct <= 100).
Proof.
  intros HS. split; [done|]. intros Hr.
  destruct speed_steps as [steps|].
  - rewrite percentage_of_raw_stepped by lia.
    rewrite current_step_of_spec; [|split; [lia|]|done].
    2:{ apply Z.le_trans with 100; [lia|done]. }
    cbn [mbind option_bind]. apply percentage_of_step_positive; lia.
  - rewrite percentage_of_raw_stepless_step by lia.
    rewrite percentage_of_step_65535 by done. cbn [mbind option_bind].
    eexists. split; [done|]. lia.
Qed.

(** C6, as stated, fails: the default is [int((1/S)*100)], which for six
    steps is 16 where [round(100/6)] is 17. *)
Lemma turn_on_default_counterexample :
  default_percentage (Some 6) = Some 16
  /\ Spec.default_percentage (Some 6) = Some 17.
Proof. by vm_compute. Qed.

Lemma default_percentage_upto_100 :
  range_all
    (fun steps => opt_eqb (default_percentage (Some steps))
                          (Some (100 / steps)))
    1 100 = true.
Proof. by vm_compute. Qed.

(** C6, amended: [async_turn_on] without a percentage commands the integer
    part of [100/S] with [S] steps, for [S] up to 100 (25 for four steps),
    and 1 percent in stepless mode; this percentage lies in [1, 100] and the
    command writes a nonzero raw value to the speed join. *)
Theorem turn_on_default (self : CrestronFan) (hub : Hub.t)
    (HS : match _speed_steps self with
          | Some steps => 1 <= steps <= 100
          | None => True
          end) :
  exists p v,
    default_percentage (_speed_steps self) = Some p
    /\ p = match _speed_steps self with
           | Some steps => 100 / steps
           | None => 1
           end
    /\ 1 <= p <= 100
    /\ async_turn_on self None hub = async_set_percentage self p hub
    /\ async_turn_on self None hub
       = Some (Hub.set_analog hub (_speed_join self) v)
    /\ 1 <= v <= 65535
    /\ default_percentage (Some 4) = Some 25.
Proof.
  assert (default_percentage (Some 4) = Some 25) as H4 by (by vm_compute).
  destruct (_speed_steps self) as [steps|] eqn:Hsteps.
  - pose proof (range_all_spec _ _ _ steps default_percentage_upto_100
                  ltac:(lia)) as Hd.
    apply opt_eqb_eq in Hd.
    assert (1 <= 100 / steps) as H1 by (apply Z.div_le_lower_bound; lia).
    assert (100 / steps <= 100) as H2 by (apply Z.div_le_upper_bound; lia).
    pose proof (analog_value_of_stepped steps (100 / steps)
                  ltac:(lia) ltac:(lia)) as Hv.
    assert (async_turn_on self None hub
            = async_set_percentage self (100 / steps) hub) as Hon.
    { unfold async_turn_on. by rewrite Hsteps, Hd. }
    destruct (analog_value_of (Some steps) (100 / steps)) as [v|] eqn:Hav.
    + exists (100 / steps), v. destruct Hv as [Hv _].
      split; [exact Hd|]. split; [reflexivity|]. split; [lia|].
      split; [exact Hon|]. split; [|split; [exact Hv|exact H4]].
      rewrite Hon. unfold async_set_percentage.
      rewrite (proj2 (Z.eqb_neq (100 / steps) 0)) by lia.
      by rewrite Hsteps, Hav.
    + exfalso. apply (Rlt_irrefl (pow2 1000)).
      apply Rle_lt_trans with (IZR steps); [exact Hv|].
      apply IZR_lt_pow2_1000. apply Z.le_lt_trans with 100; [lia|reflexivity].
  - exists 1, 655.
    split; [reflexivity|]. split; [reflexivity|]. split; [lia|].
    split; [by unfold async_turn_on; rewrite Hsteps|].
    split; [|split; [lia|exact H4]].
    unfold async_turn_on, async_set_percentage. rewrite Hsteps.
    cbn [default_percentage mbind option_bind Z.eqb].
    by rewrite analog_value_of_stepless.
Qed.

Lemma turn_on_default_witness :
  exists p v,
    default_percentage (Some 4) = Some p
    /\ p = 100 / 4
    /\ 1 <= p <= 100
    /\ async_turn_on (fan_with_steps 4) None empty_hub
       = async_set_percentage (fan_with_steps 4) p empty_hub
    /\ async_turn_on (fan_with_steps 4) None empty_hub
       = Some (Hub.set_analog empty_hub 7 v)
    /\ 1 <= v <= 65535
    /\ default_percentage (Some 4) = Some 25.
Proof.
  apply (turn_on_default (fan_with_steps 4) empty_hub). simpl. lia.
Defined.

(** C7: whatever the configuration, [async_set_percentage] with 0 sends
    one write of 0 to the speed join and computes nothing else; for a
    percentage in [1, 100] a call that returns has sent one write to the
    speed join, of a value in [1, 65535], which is then read back nonzero;
    and the call does return (in stepped mode for every step count from 1 up
    to [2^1000], beyond which the conversion of the step count to a float
    overflows and nothing is written). *)
Theorem encoder_zero_handling (self : CrestronFan) (hub : Hub.t) (p : Z) :
  async_set_percentage self 0 hub
  = Some (Hub.set_analog hub (_speed_join self) 0)
  /\ (1 <= p <= 100 ->
      match _speed_steps self with
      | Some steps => 0 <= steps
      | None => True
      end ->
      (forall hub', async_set_percentage self p hub = Some hub' ->
         exists v, 1 <= v <= 65535
           /\ hub' = Hub.set_analog hub (_speed_join self) v
           /\ Hub.get_analog hub' (_speed_join self) <> 0)
      /\ (match _speed_steps self with
          | Some steps => 1 <= steps < 2 ^ 1000
          | None => True
          end ->
          is_Some (async_set_percentage self p hub))).
Proof.
  split; [done|]. intros Hp HS.
  unfold async_set_percentage. rewrite (proj2 (Z.eqb_neq p 0)) by lia.
  assert (match analog_value_of (_speed_steps self) p with
          | Some v => 1 <= v <= 65535
          | None =>
              match _speed_steps self with
              | Some steps => ~ (1 <= steps < 2 ^ 1000)
              | None => False
              end
          end) as Hv.
  { destruct (_speed_steps self) as [steps|].
    - destruct (Z.eq_dec steps 0) as [->|Hne].
      + rewrite analog_value_of_zero_steps. lia.
      + pose proof (analog_value_of_stepped steps p Hp ltac:(lia)) as H.
        destruct (analog_value_of (Some steps) p) as [v|]; [by destruct H|].
        intros [_ Hlt]. apply IZR_lt_pow2_1000 in Hlt.
        apply (Rlt_irrefl (pow2 1000)).
        by apply Rle_lt_trans with (IZR steps).
    - rewrite analog_value_of_stepless by done.
      split; [apply Z.div_le_lower_bound|apply Z.div_le_upper_bound]; lia. }
  destruct (analog_value_of (_speed_steps self) p) as [v|];
    cbn [mbind option_bind].
  - split; [|by eexists]. intros hub' [= <-]. exists v.
    split; [done|]. split; [done|]. rewrite get_set_analog. lia.
  - split; [done|]. intros Hsmall.
    destruct (_speed_steps self); by exfalso; auto.
Qed.

Lemma encoder_zero_handling_witness :
  async_set_percentage fan_with_reverse 0 empty_hub
  = Some (Hub.set_analog empty_hub 7 0)
  /\ (forall hub',
        async_set_percentage fan_with_reverse 50 empty_hub = Some hub' ->
        exists v, 1 <= v <= 65535
          /\ hub' = Hub.set_analog empty_hub 7 v
          /\ Hub.get_analog hub' 7 <> 0)
  /\ is_Some (async_set_percentage fan_with_reverse 50 empty_hub).
Proof.
  destruct (encoder_zero_handling fan_with_reverse empty_hub 50) as [H0 H].
  split; [exact H0|].
  destruct H as [Hsafe Hlive]; [lia|simpl; lia|].
  split; [exact Hsafe|]. apply Hlive. simpl. split; [lia|done].
Defined.

(** ** Zero percentage and turn-off *)

(** C9: [async_turn_on] with the explicit percentage 0 takes the zero
    branch of [async_set_percentage]: whatever the configuration, it does
    exactly what [async_turn_off] does, a single write of 0 to the speed
    join. *)
Theorem turn_on_zero_is_turn_off (self : CrestronFan) (hub : Hub.t) :
  async_turn_on self (Some 0) hub = async_turn_off self hub
  /\ async_turn_on self (Some 0) hub
     = Some (Hub.set_analog hub (_speed_join self) 0)
  /\ (forall hub', async_turn_on self (Some 0) hub = Some hub' ->
      Hub.get_analog hub' (_speed_join self) = 0
      /\ percentage self hub' = Some 0
      /\ is_on self hub' = Some false).
Proof.
  split; [reflexivity|]. split; [reflexivity|].
  intros hub' [= <-]. unfold is_on, percentage.
  rewrite get_set_analog. by repeat split.
Qed.

(** ** Direction *)

(** C8: without a reversal join the direction is [None] and setting it
    returns the hub untouched (no write is sent); with one, the direction
    is "reverse" exactly when the digital join reads true and "forward"
    exactly when it reads false, and setting the direction [d] writes
    [d == "reverse"] to that join. *)
Theorem direction_mapper (self : CrestronFan) (d : string) (hub : Hub.t) :
  match _reverse_join self with
  | None =>
      current_direction self hub = None
      /\ async_set_direction self d hub = Some hub
  | Some join =>
      (current_direction self hub = Some "reverse"%string
       <-> Hub.get_digital hub join = true)
      /\ (current_direction self hub = Some "forward"%string
          <-> Hub.get_digital hub join = false)
      /\ async_set_direction self d hub
         = Some (Hub.set_digital hub join (bool_decide (d = "reverse"%string)))
      /\ Hub.get_digital
           (Hub.set_digital hub join (bool_decide (d = "reverse"%string))) join
         = bool_decide (d = "reverse"%string)
  end.
Proof.
  unfold current_direction, async_set_direction.
  destruct (_reverse_join self) as [join|]; [|done].
  repeat split.
  - by destruct (Hub.get_digital hub join).
  - by intros ->.
  - by destruct (Hub.get_digital hub join).
  - by intros ->.
  - do 2 f_equal. case_bool_decide as Hd.
    + by apply String.eqb_eq.
    + by apply String.eqb_neq.
  - apply get_set_digital.
Qed.

(** C10: with a reversal join configured, [async_set_direction] sends one
    write, to that digital join; the analog joins (the speed join among
    them), every other digital join and the availability flag are as
    before; and any direction other than "reverse" writes false. *)
Theorem set_direction_frame (self : CrestronFan) (join : Z) (d : string)
    (hub : Hub.t) (Hjoin : _reverse_join self = Some join) :
  exists hub',
    async_set_direction self d hub = Some hub'
    /\ Hub.analog hub' = Hub.analog hub
    /\ Hub.get_analog hub' (_speed_join self)
       = Hub.get_analog hub (_speed_join self)
    /\ (forall j, j <> join -> Hub.get_digital hub' j = Hub.get_digital hub j)
    /\ Hub.available hub' = Hub.available hub
    /\ Hub.sent hub'
       = Hub.sent hub ++ [Hub.Digital join (bool_decide (d = "reverse"%string))]
    /\ (d <> "reverse"%string ->
        Hub.get_digital hub' join = false
        /\ Hub.sent hub' = Hub.sent hub ++ [Hub.Digital join false]).
Proof.
  unfold async_set_direction. rewrite Hjoin.
  assert (String.eqb d "reverse" = bool_decide (d = "reverse"%string)) as ->.
  { case_bool_decide; [by apply String.eqb_eq|by apply String.eqb_neq]. }
  eexists. split; [reflexivity|]. repeat split.
  - intros j Hj. unfold Hub.get_digital; simpl.
    by rewrite (proj2 (Z.eqb_neq j join)).
  - rewrite get_set_digital. by apply bool_decide_eq_false.
  - simpl. by rewrite bool_decide_eq_false_2.
Qed.

Lemma set_direction_frame_witness :
  exists hub',
    async_set_direction fan_with_reverse "forward" empty_hub = Some hub'
    /\ Hub.analog hub' = Hub.analog empty_hub
    /\ Hub.get_analog hub' 7 = Hub.get_analog empty_hub 7
    /\ (forall j, j <> 8 ->
        Hub.get_digital hub' j = Hub.get_digital empty_hub j)
    /\ Hub.available hub' = Hub.available empty_hub
    /\ Hub.sent hub'
       = Hub.sent empty_hub
         ++ [Hub.Digital 8 (bool_decide ("forward"%string = "reverse"%string))]
    /\ ("forward"%string <> "reverse"%string ->
        Hub.get_digital hub' 8 = false
        /\ Hub.sent hub' = Hub.sent empty_hub ++ [Hub.Digital 8 false]).
Proof.
  exact (set_direction_frame fan_with_reverse 8 "forward" empty_hub eq_refl).
Defined.

(** ** No cached speed *)




(** ** Further properties of the speed mapping *)

Section exact_steps.
Local Open Scope R_scope.

(** [int((S / S) * 100)] is 100 for every step count: the quotient and the
    product are exact. *)
Lemma percentage_of_step_full (steps : Z) :
  (1 <= steps)%Z -> percentage_of_step steps steps = Some 100%Z.
Proof.
  intros HS.
  assert (0 < IZR steps) as HSR by (apply IZR_lt; lia).
  assert (IZR steps / IZR steps = 1) as Hone by (field; lra).
  pose proof pow2_m1020_small as Hsmall. pose proof pow2_1023_big as Hbig.
  assert (100 < pow2 53) as H53.
  { rewrite (pow2_IZR 53) by lia. apply IZR_lt. done. }
  unfold percentage_of_step.
  pose proof (int_truediv_spec steps steps ltac:(lia) ltac:(lia)
                ltac:(rewrite Hone; lra)) as Hy.
  rewrite Hone in Hy.
  destruct (Py.int_truediv steps steps) as [y|]; [|lra].
  cbn [mbind option_bind].
  assert (F2R y = 1) as Hy1 by (apply (rounds_integer 1 y 1 Hy); [lra|done]).
  apply rounds_normal in Hy.
  destruct (float_of_small_int 100 ltac:(lia)) as (c & Hc & Hcn & Hcv).
  unfold Py.float_int_mul. rewrite Hc. cbn [mbind option_bind].
  assert (F2R y * F2R c = 100) as Hprod by (rewrite Hy1, Hcv; lra).
  assert (pow2 (-1022) <= F2R y * F2R c) as Hlow.
  { apply Rle_trans with (pow2 (-1020)); [apply pow2_le; lia|].
    rewrite Hprod. lra. }
  destruct (float_mul_spec y c Hy Hcn Hlow) as [Hz|[_ Hov]];
    [|rewrite Hprod in Hov; lra].
  rewrite Hprod in Hz.
  assert (F2R (Py.float_mul y c) = 100) as Hz1
    by (apply (rounds_integer 100 _ 100 Hz); [lra|done]).
  apply rounds_normal in Hz.
  destruct (int_value _ Hz) as (n & -> & Hn). rewrite Hz1 in Hn.
  f_equal.
  assert (n <= 100)%Z by (apply le_IZR; lra).
  assert (100 < n + 1)%Z by (apply lt_IZR; rewrite plus_IZR; lra).
  lia.
Qed.

End exact_steps.

(** The percentage of a step is in [0, 100], at most the integer part of
    [100 * k / S] and at most one below it. *)
Lemma percentage_of_step_range (steps k : Z) :
  1 <= k <= steps -> steps <= 2 ^ 40 ->
  exists pct, percentage_of_step steps k = Some pct
    /\ 0 <= pct <= 100
    /\ 100 * k / steps - 1 <= pct <= 100 * k / steps
    /\ ((100 * k) mod steps <> 0 -> pct = 100 * k / steps).
Proof.
  intros Hk HS.
  destruct (percentage_of_step_bounds steps k Hk HS) as (pct & Hpct & Hb & Hex).
  exists pct. split; [done|]. split; [|done].
  assert (0 <= 100 * k / steps) as H0 by (apply Z.div_pos; lia).
  assert (100 * k / steps <= 100) as H1 by (apply Z.div_le_upper_bound; lia).
  split; [|lia].
  destruct (Z.eq_dec ((100 * k) mod steps) 0) as [Hm|Hne]; [|rewrite Hex; done].
  pose proof (Z.div_mod (100 * k) steps ltac:(lia)) as Hdm. rewrite Hm in Hdm.
  assert (100 * k / steps <> 0) by (intros Hq; rewrite Hq in Hdm; lia).
  lia.
Qed.

(** A higher step never has a lower percentage. *)
Lemma percentage_of_step_mono (steps k k' : Z) :
  1 <= k <= k' -> k' <= steps -> steps <= 2 ^ 40 ->
  exists pct pct', percentage_of_step steps k = Some pct
    /\ percentage_of_step steps k' = Some pct' /\ pct <= pct'.
Proof.
  intros Hk Hk' HS.
  destruct (percentage_of_step_range steps k ltac:(lia) HS)
    as (pct & Hpct & _ & Hb & _).
  destruct (percentage_of_step_range steps k' ltac:(lia) HS)
    as (pct' & Hpct' & _ & Hb' & Hex').
  exists pct, pct'. split; [done|]. split; [done|].
  destruct (Z.eq_dec k k') as [<-|Hne]; [rewrite Hpct in Hpct'; injection Hpct'; lia|].
  assert (100 * k / steps <= 100 * k' / steps) as Hq
    by (apply Z.div_le_mono; lia).
  destruct (Z.eq_dec ((100 * k') mod steps) 0) as [Hm|Hnm];
    [|rewrite (Hex' Hnm); lia].
  pose proof (Z.div_mod (100 * k') steps ltac:(lia)) as Hdm. rewrite Hm in Hdm.
  assert (100 * k / steps < 100 * k' / steps); [|lia].
  apply Z.div_lt_upper_bound; lia.
Qed.

Lemma nearest_step_mono (steps r r' : Z) :
  0 <= steps -> r <= r' -> nearest_step steps r <= nearest_step steps r'.
Proof.
  intros HS Hr. unfold nearest_step. apply Z.div_le_mono; [lia|].
  apply Z.add_le_mono_r. apply Z.mul_le_mono_nonneg_r; lia.
Qed.

(** The value of the top step is read back as that step. *)
Lemma nearest_step_65535 (steps : Z) : nearest_step steps 65535 = steps.
Proof.
  unfold nearest_step. symmetry.
  apply (Z.div_unique _ _ _ 65535); lia.
Qed.

(** The stepped encoder up to [2^37] steps: the step is the clamped
    nearest integer to [p * S / 100] and the value the integer part of
    [k * 65535 / S]. *)
Lemma analog_value_of_nearest (steps p : Z) :
  1 <= p <= 100 -> 1 <= steps <= 2 ^ 37 ->
  exists n, Z.abs (100 * n - p * steps) <= 50
    /\ step_of_percentage steps p = Some (Z.max 1 (Z.min steps n))
    /\ analog_value_of (Some steps) p
       = Some (Z.max 1 (Z.min steps n) * 65535 / steps)
    /\ 1 <= Z.max 1 (Z.min steps n) * 65535 / steps <= 65535.
Proof.
  intros Hp [HS1 HS2].
  pose proof (analog_value_of_stepped steps p Hp HS1) as H.
  destruct (analog_value_of (Some steps) p) as [v|].
  - destruct H as [Hv Hn]. destruct (Hn HS2) as (n & Hn1 & Hn2 & ->).
    by exists n.
  - exfalso. apply (Rlt_irrefl (pow2 1000)).
    apply Rle_lt_trans with (IZR steps); [done|].
    apply IZR_lt_pow2_1000. by apply Z.le_lt_trans with (2 ^ 37).
Qed.

(** The stepless decoder on the 16-bit range. *)
Lemma percentage_of_raw_stepless (r : Z) :
  1 <= r <= 65535 ->
  percentage_of_raw None r = Some (Z.max 1 (Z.min 100 (100 * r / 65535))).
Proof.
  intros Hr. rewrite percentage_of_raw_stepless_step by lia.
  by rewrite percentage_of_step_65535.
Qed.

(** The stepped decoder on the 16-bit range, up to [2^32] steps. *)
Lemma percentage_of_raw_nearest (steps r : Z) :
  1 <= steps <= 2 ^ 32 -> 1 <= r <= 65535 ->
  percentage_of_raw (Some steps) r
  = percentage_of_step steps (Z.min steps (Z.max 1 (nearest_step steps r))).
Proof.
  intros HS Hr. rewrite percentage_of_raw_stepped by lia.
  by rewrite current_step_of_spec.
Qed.

Lemma le_2_32_2_40 (steps : Z) : steps <= 2 ^ 32 -> steps <= 2 ^ 40.
Proof. intros H. by apply Z.le_trans with (2 ^ 32). Qed.

(** On a nonzero 16-bit value [is_on] is true, with no step count or at
    most 100 steps. *)
Lemma is_on_nonzero_value (self : CrestronFan) (hub : Hub.t) :
  match _speed_steps self with
  | Some steps => 1 <= steps <= 100
  | None => True
  end ->
  1 <= Hub.get_analog hub (_speed_join self) <= 65535 ->
  is_on self hub = Some true.
Proof.
  intros HS Hr. unfold is_on, percentage.
  destruct (decoder_bounds (_speed_steps self)
              (Hub.get_analog hub (_speed_join self)) HS) as [_ H1].
  destruct (H1 Hr) as (pct & -> & Hpct). cbn [mbind option_bind].
  f_equal. apply Z.ltb_lt. lia.
Qed.

(** X1: with no step count or with at most 100 steps, [is_on] never raises
    on a 16-bit value of the speed join and is true exactly when that value
    is not 0. *)
Theorem is_on_iff_nonzero (self : CrestronFan) (hub : Hub.t) :
  match _speed_steps self with
  | Some steps => 1 <= steps <= 100
  | None => True
  end ->
  0 <= Hub.get_analog hub (_speed_join self) <= 65535 ->
  is_on self hub
  = Some (negb (Hub.get_analog hub (_speed_join self) =? 0)).
Proof.
  intros HS Hr. unfold is_on, percentage.
  destruct (decoder_bounds (_speed_steps self)
              (Hub.get_analog hub (_speed_join self)) HS) as [H0 H1].
  destruct (Z.eqb_spec (Hub.get_analog hub (_speed_join self)) 0) as [->|Hne].
  - by rewrite H0.
  - destruct H1 as (pct & -> & Hpct); [lia|]. cbn [mbind option_bind negb].
    f_equal. apply Z.ltb_lt. lia.
Qed.

Lemma is_on_iff_nonzero_witness :
  is_on (fan_with_steps 3) (Hub.analog_changed empty_hub 7 43690)
  = Some (negb (Hub.get_analog (Hub.analog_changed empty_hub 7 43690) 7 =? 0)).
Proof.
  apply (is_on_iff_nonzero (fan_with_steps 3)
           (Hub.analog_changed empty_hub 7 43690)); simpl; lia.
Defined.

(** The decoder on the 16-bit range returns a percentage in [0, 100]. *)
Lemma percentage_of_raw_range (speed_steps : option Z) (r : Z) :
  match speed_steps with
  | Some steps => 1 <= steps <= 2 ^ 32
  | None => True
  end ->
  0 <= r <= 65535 ->
  exists pct, percentage_of_raw speed_steps r = Some pct /\ 0 <= pct <= 100.
Proof.
  intros HS Hr.
  destruct (Z.eq_dec r 0) as [->|Hne]; [exists 0; split; [done|lia]|].
  destruct speed_steps as [steps|].
  - rewrite percentage_of_raw_nearest by lia.
    destruct (percentage_of_step_range steps
                (Z.min steps (Z.max 1 (nearest_step steps r))))
      as (pct & Hpct & Hb & _); [lia|apply le_2_32_2_40; lia|].
    by exists pct.
  - rewrite percentage_of_raw_stepless by lia.
    eexists. split; [done|]. lia.
Qed.

(** X2: for a 16-bit value of the speed join, [percentage] returns an
    integer in [0, 100], with no step count and with any step count up to
    [2^32] (also above 100, where low steps read 0). *)
Theorem percentage_in_range (self : CrestronFan) (hub : Hub.t) :
  match _speed_steps self with
  | Some steps => 1 <= steps <= 2 ^ 32
  | None => True
  end ->
  0 <= Hub.get_analog hub (_speed_join self) <= 65535 ->
  exists pct, percentage self hub = Some pct /\ 0 <= pct <= 100.
Proof. intros HS Hr. by apply percentage_of_raw_range. Qed.

Lemma percentage_in_range_witness :
  exists pct,
    percentage (fan_with_steps 1000) (Hub.analog_changed empty_hub 7 131)
    = Some pct /\ 0 <= pct <= 100.
Proof.
  apply (percentage_in_range (fan_with_steps 1000)
           (Hub.analog_changed empty_hub 7 131)); simpl; lia.
Defined.

(** X3: the decoder is monotone: of two 16-bit values of the speed join the
    larger never reads as the smaller percentage (no step count, or up to
    [2^32] steps). *)
Theorem percentage_monotone (self : CrestronFan) (hub hub' : Hub.t) :
  match _speed_steps self with
  | Some steps => 1 <= steps <= 2 ^ 32
  | None => True
  end ->
  0 <= Hub.get_analog hub (_speed_join self) ->
  Hub.get_analog hub (_speed_join self)
  <= Hub.get_analog hub' (_speed_join self) ->
  Hub.get_analog hub' (_speed_join self) <= 65535 ->
  exists pct pct',
    percentage self hub = Some pct /\ percentage self hub' = Some pct'
    /\ pct <= pct'.
Proof.
  intros HS Hr0 Hrr Hr1.
  destruct (percentage_of_raw_range (_speed_steps self)
              (Hub.get_analog hub' (_speed_join self)) HS ltac:(lia))
    as (q' & Hq' & Hq'b).
  unfold percentage.
  set (r := Hub.get_analog hub (_speed_join self)) in *.
  set (r' := Hub.get_analog hub' (_speed_join self)) in *.
  destruct (Z.eq_dec r 0) as [->|Hne].
  { exists 0, q'. split; [done|]. split; [done|lia]. }
  destruct (_speed_steps self) as [steps|].
  - rewrite !percentage_of_raw_nearest by lia.
    apply percentage_of_step_mono; [|lia|apply le_2_32_2_40; lia].
    pose proof (nearest_step_mono steps r r' ltac:(lia) Hrr). lia.
  - rewrite !percentage_of_raw_stepless by lia.
    do 2 eexists. split; [done|]. split; [done|].
    assert (100 * r / 65535 <= 100 * r' / 65535)
      by (apply Z.div_le_mono; lia).
    lia.
Qed.

Lemma percentage_monotone_witness :
  exists pct pct',
    percentage (fan_with_steps 3) (Hub.analog_changed empty_hub 7 21845)
    = Some pct
    /\ percentage (fan_with_steps 3) (Hub.analog_changed empty_hub 7 43690)
       = Some pct'
    /\ pct <= pct'.
Proof.
  apply (percentage_monotone (fan_with_steps 3)
           (Hub.analog_changed empty_hub 7 21845)
           (Hub.analog_changed empty_hub 7 43690)); simpl; lia.
Defined.

(** Of two percentages in [1, 100] the larger never gets the smaller raw
    value. *)
Lemma analog_value_of_mono (speed_steps : option Z) (p p' : Z) :
  match speed_steps with
  | Some steps => 1 <= steps <= 2 ^ 37
  | None => True
  end ->
  1 <= p <= p' -> p' <= 100 ->
  exists v v', analog_value_of speed_steps p = Some v
    /\ analog_value_of speed_steps p' = Some v'
    /\ 1 <= v /\ v <= v' /\ v' <= 65535.
Proof.
  intros HS Hp Hp'. destruct speed_steps as [steps|].
  - destruct (analog_value_of_nearest steps p ltac:(lia) HS)
      as (n & Hn & _ & Hv & Hvb).
    destruct (analog_value_of_nearest steps p' ltac:(lia) HS)
      as (n' & Hn' & _ & Hv' & Hvb').
    do 2 eexists. split; [exact Hv|]. split; [exact Hv'|].
    split; [lia|]. split; [|lia].
    assert (p * steps <= p' * steps) as Hps
      by (apply Z.mul_le_mono_nonneg_r; lia).
    destruct (Z.eq_dec p p') as [<-|Hne].
    { rewrite Hv in Hv'. injection Hv' as ->. lia. }
    assert (p * steps + steps <= p' * steps) as Hps'.
    { replace (p * steps + steps) with ((p + 1) * steps) by ring.
      apply Z.mul_le_mono_nonneg_r; lia. }
    assert (n <= n') by lia.
    apply Z.div_le_mono; [lia|]. apply Z.mul_le_mono_nonneg_r; lia.
  - rewrite !analog_value_of_stepless by lia.
    do 2 eexists. split; [done|]. split; [done|].
    split; [apply Z.div_le_lower_bound; lia|].
    split; [apply Z.div_le_mono; lia|apply Z.div_le_upper_bound; lia].
Qed.

Lemma set_percentage_nonzero (self : CrestronFan) (p : Z) (hub : Hub.t) :
  p <> 0 ->
  async_set_percentage self p hub
  = (analog_value ← analog_value_of (_speed_steps self) p;
     Some (Hub.set_analog hub (_speed_join self) analog_value)).
Proof.
  intros Hp. unfold async_set_percentage.
  by rewrite (proj2 (Z.eqb_neq p 0)).
Qed.

(** X4: the encoder is monotone: of two percentages in [0, 100] the larger
    never writes the smaller raw value (no step count, or up to [2^37]
    steps), and both writes succeed. *)
Theorem set_percentage_monotone (self : CrestronFan) (hub : Hub.t) (p p' : Z) :
  match _speed_steps self with
  | Some steps => 1 <= steps <= 2 ^ 37
  | None => True
  end ->
  0 <= p <= p' -> p' <= 100 ->
  exists v v',
    async_set_percentage self p hub
    = Some (Hub.set_analog hub (_speed_join self) v)
    /\ async_set_percentage self p' hub
       = Some (Hub.set_analog hub (_speed_join self) v')
    /\ 0 <= v /\ v <= v' /\ v' <= 65535.
Proof.
  intros HS Hp Hp'.
  destruct (Z.eq_dec p' 0) as [->|Hne'].
  { assert (p = 0) as -> by lia. exists 0, 0. repeat split; done. }
  destruct (Z.eq_dec p 0) as [->|Hne].
  - destruct (analog_value_of_mono (_speed_steps self) p' p' HS
                ltac:(lia) ltac:(lia)) as (v0 & v & _ & Hv & Hb).
    exists 0, v. split; [done|]. rewrite set_percentage_nonzero by done.
    rewrite Hv. split; [done|]. lia.
  - destruct (analog_value_of_mono (_speed_steps self) p p' HS
                ltac:(lia) ltac:(lia)) as (v & v' & Hv & Hv' & Hb).
    exists v, v'. rewrite !set_percentage_nonzero by done.
    rewrite Hv, Hv'. split; [done|]. split; [done|]. lia.
Qed.

Lemma set_percentage_monotone_witness :
  exists v v',
    async_set_percentage (fan_with_steps 3) 20 empty_hub
    = Some (Hub.set_analog empty_hub 7 v)
    /\ async_set_percentage (fan_with_steps 3) 60 empty_hub
       = Some (Hub.set_analog empty_hub 7 v')
    /\ 0 <= v /\ v <= v' /\ v' <= 65535.
Proof.
  apply (set_percentage_monotone (fan_with_steps 3) empty_hub 20 60);
    simpl; lia.
Defined.

(** X5: full scale is exact in both directions: 100 percent writes 65535,
    and the value 65535 reads back as 100 percent (no step count, or up to
    [2^32] steps). *)
Theorem full_scale (self : CrestronFan) (hub : Hub.t) :
  match _speed_steps self with
  | Some steps => 1 <= steps <= 2 ^ 32
  | None => True
  end ->
  async_set_percentage self 100 hub
  = Some (Hub.set_analog hub (_speed_join self) 65535)
  /\ percentage self (Hub.set_analog hub (_speed_join self) 65535) = Some 100
  /\ (Hub.get_analog hub (_speed_join self) = 65535 ->
      percentage self hub = Some 100).
Proof.
  intros HS.
  assert (percentage_of_raw (_speed_steps self) 65535 = Some 100) as Hdec.
  { destruct (_speed_steps self) as [steps|].
    - rewrite percentage_of_raw_nearest by lia.
      rewrite nearest_step_65535.
      replace (Z.min steps (Z.max 1 steps)) with steps by lia.
      apply percentage_of_step_full. lia.
    - by rewrite percentage_of_raw_stepless. }
  split; [|split].
  - rewrite set_percentage_nonzero by done.
    destruct (_speed_steps self) as [steps|].
    + destruct (analog_value_of_nearest steps 100 ltac:(lia))
        as (n & Hn & _ & -> & _).
      { split; [lia|]. apply Z.le_trans with (2 ^ 32); [lia|done]. }
      assert (n = steps) as -> by lia.
      replace (Z.max 1 (Z.min steps steps)) with steps by lia.
      cbn [mbind option_bind]. do 2 f_equal.
      rewrite Z.mul_comm. apply Z.div_mul. lia.
    + by rewrite analog_value_of_stepless.
  - unfold percentage. by rewrite get_set_analog.
  - unfold percentage. by intros ->.
Qed.

Lemma full_scale_witness :
  async_set_percentage (fan_with_steps 3) 100 empty_hub
  = Some (Hub.set_analog empty_hub 7 65535)
  /\ percentage (fan_with_steps 3) (Hub.set_analog empty_hub 7 65535)
     = Some 100
  /\ (Hub.get_analog empty_hub 7 = 65535 ->
      percentage (fan_with_steps 3) empty_hub = Some 100).
Proof. apply (full_scale (fan_with_steps 3) empty_hub); simpl; lia. Defined.

Lemma stepless_readback_all :
  range_all
    (fun p => opt_eqb (percentage_of_raw None (p * 65535 / 100))
                      (Some (stepless_readback p)))
    1 100 = true.
Proof. by vm_compute. Qed.

(** X6: in stepless mode a percentage [p] in [1, 100] that is set and read
    back comes out as [p - 1], because both conversions truncate; only the
    multiples of 20 and 1 percent come back unchanged.  The reading is
    never above the command and never 0. *)
Theorem stepless_set_then_read (self : CrestronFan) (hub : Hub.t) (p : Z) :
  _speed_steps self = None -> 1 <= p <= 100 ->
  exists hub' pct,
    async_set_percentage self p hub = Some hub'
    /\ percentage self hub' = Some pct
    /\ pct = (if (p mod 20 =? 0) || (p =? 1) then p else p - 1)
    /\ 1 <= pct <= p
    /\ is_on self hub' = Some true.
Proof.
  intros Hsteps Hp.
  pose proof (range_all_spec _ _ _ p stepless_readback_all ltac:(lia)) as Hrb.
  cbv beta in Hrb. apply opt_eqb_eq in Hrb.
  exists (Hub.set_analog hub (_speed_join self) (p * 65535 / 100)).
  exists (stepless_readback p).
  assert (1 <= stepless_readback p <= p) as Hb.
  { unfold stepless_readback.
    destruct (Z.eqb_spec (p mod 20) 0); [simpl; lia|].
    destruct (Z.eqb_spec p 1); simpl; lia. }
  split; [|split; [|split; [done|split; [done|]]]].
  - rewrite set_percentage_nonzero by lia.
    by rewrite Hsteps, analog_value_of_stepless.
  - unfold percentage. by rewrite Hsteps, get_set_analog.
  - unfold is_on, percentage. rewrite Hsteps, get_set_analog, Hrb.
    cbn [mbind option_bind]. f_equal. apply Z.ltb_lt. lia.
Qed.

Lemma stepless_set_then_read_witness :
  exists hub' pct,
    async_set_percentage stepless_fan 50 empty_hub = Some hub'
    /\ percentage stepless_fan hub' = Some pct
    /\ pct = (if (50 mod 20 =? 0) || (50 =? 1) then 50 else 50 - 1)
    /\ 1 <= pct <= 50
    /\ is_on stepless_fan hub' = Some true.
Proof.
  apply (stepless_set_then_read stepless_fan empty_hub 50); [reflexivity|lia].
Defined.

(** X7: with [S] steps, [S] up to 32767, a percentage [p] in [1, 100] that
    is set and read back goes through one step [k], the clamped nearest
    integer to [p * S / 100]: the value written is decoded to step [k], and
    the percentage read is [int((k / S) * 100)], in [0, 100].  When
    [p * S >= 50] (step 1 is not forced from below) the reading differs
    from [p] by less than [2 + 50 / S]. *)
Theorem stepped_set_then_read (self : CrestronFan) (hub : Hub.t)
    (steps p : Z) :
  _speed_steps self = Some steps -> 1 <= steps <= 32767 -> 1 <= p <= 100 ->
  exists n hub' pct,
    Z.abs (100 * n - p * steps) <= 50
    /\ async_set_percentage self p hub = Some hub'
    /\ current_step_of steps (Hub.get_analog hub' (_speed_join self))
       = Some (Z.max 1 (Z.min steps n))
    /\ percentage self hub' = Some pct
    /\ percentage_of_step steps (Z.max 1 (Z.min steps n)) = Some pct
    /\ 0 <= pct <= 100
    /\ (50 <= p * steps ->
        (p - 2) * steps - 50 < pct * steps <= p * steps + 50).
Proof.
  intros Hsteps HS Hp.
  assert (steps <= 2 ^ 32) as HS32
    by (apply Z.le_trans with 32767; [lia|done]).
  assert (steps <= 2 ^ 37) as HS37
    by (apply Z.le_trans with 32767; [lia|done]).
  destruct (analog_value_of_nearest steps p Hp ltac:(lia))
    as (n & Hn & _ & Hv & Hvb).
  set (k := Z.max 1 (Z.min steps n)) in *.
  assert (1 <= k <= steps) as Hk by lia.
  destruct (roundtrip_step steps k Hk ltac:(lia)) as [_ Hrt].
  destruct (percentage_of_step_range steps k Hk (le_2_32_2_40 _ HS32))
    as (pct & Hpct & Hpb & Hq & _).
  exists n, (Hub.set_analog hub (_speed_join self) (k * 65535 / steps)), pct.
  split; [done|]. split; [|split; [|split; [|split; [done|split; [done|]]]]].
  - rewrite set_percentage_nonzero by lia. by rewrite Hsteps, Hv.
  - rewrite get_set_analog, current_step_of_spec by lia.
    rewrite Hrt. f_equal. lia.
  - unfold percentage. rewrite Hsteps, get_set_analog.
    rewrite percentage_of_raw_nearest by lia. rewrite Hrt.
    by replace (Z.min steps (Z.max 1 k)) with k by lia.
  - intros H50.
    assert (p * steps <= 100 * steps) as Hps
      by (apply Z.mul_le_mono_nonneg_r; lia).
    assert (p * steps - 50 <= 100 * k <= p * steps + 50) as H100 by lia.
    pose proof (Z.div_mod (100 * k) steps ltac:(lia)) as Hdm.
    pose proof (Z.mod_pos_bound (100 * k) steps ltac:(lia)) as Hmod.
    set (q := 100 * k / steps) in *.
    assert (pct * steps <= q * steps)
      by (apply Z.mul_le_mono_nonneg_r; lia).
    assert ((q - 1) * steps <= pct * steps)
      by (apply Z.mul_le_mono_nonneg_r; lia).
    lia.
Qed.

Lemma stepped_set_then_read_witness :
  exists n hub' pct,
    Z.abs (100 * n - 50 * 3) <= 50
    /\ async_set_percentage (fan_with_steps 3) 50 empty_hub = Some hub'
    /\ current_step_of 3 (Hub.get_analog hub' 7)
       = Some (Z.max 1 (Z.min 3 n))
    /\ percentage (fan_with_steps 3) hub' = Some pct
    /\ percentage_of_step 3 (Z.max 1 (Z.min 3 n)) = Some pct
    /\ 0 <= pct <= 100
    /\ (50 <= 50 * 3 -> (50 - 2) * 3 - 50 < pct * 3 <= 50 * 3 + 50).
Proof.
  apply (stepped_set_then_read (fan_with_steps 3) empty_hub 3 50);
    [reflexivity|lia|lia].
Defined.

(** X8: with at most 49 steps the reported percentage is stable: setting
    the percentage the entity reports for a 16-bit value selects the step
    that value was decoded to, writes that step's value, and the entity
    then reports the same percentage again. *)
Theorem reported_percentage_stable (self : CrestronFan) (hub : Hub.t)
    (steps : Z) :
  _speed_steps self = Some steps -> 1 <= steps <= 49 ->
  1 <= Hub.get_analog hub (_speed_join self) <= 65535 ->
  exists k pct hub',
    current_step_of steps (Hub.get_analog hub (_speed_join self)) = Some k
    /\ percentage self hub = Some pct
    /\ step_of_percentage steps pct = Some k
    /\ async_set_percentage self pct hub = Some hub'
    /\ hub' = Hub.set_analog hub (_speed_join self) (k * 65535 / steps)
    /\ percentage self hub' = Some pct.
Proof.
  intros Hsteps HS Hr.
  set (r := Hub.get_analog hub (_speed_join self)) in *.
  assert (steps <= 2 ^ 32) as HS32 by (apply Z.le_trans with 49; [lia|done]).
  assert (steps <= 2 ^ 37) as HS37 by (apply Z.le_trans with 49; [lia|done]).
  set (k := Z.min steps (Z.max 1 (nearest_step steps r))).
  assert (1 <= k <= steps) as Hk by lia.
  assert (percentage_of_raw (Some steps) r = percentage_of_step steps k)
    as Hdec by (by apply percentage_of_raw_nearest; lia).
  destruct (percentage_of_step_positive steps k Hk ltac:(lia))
    as (pct & Hpct & Hpb).
  destruct (percentage_of_step_bounds steps k Hk (le_2_32_2_40 _ HS32))
    as (pct0 & Hpct0 & Hq & Hex).
  rewrite Hpct in Hpct0. injection Hpct0 as <-.
  destruct (analog_value_of_nearest steps pct Hpb ltac:(lia))
    as (n & Hn & Hstep & Hv & _).
  assert (n = k) as Hnk.
  { pose proof (Z.div_mod (100 * k) steps ltac:(lia)) as Hdm.
    pose proof (Z.mod_pos_bound (100 * k) steps ltac:(lia)) as Hmod.
    set (q := 100 * k / steps) in *. set (rr := (100 * k) mod steps) in *.
    destruct (Z.eq_dec rr 0) as [H0|Hne].
    - assert (pct = q \/ pct = q - 1) as [->| ->] by lia.
      + lia.
      + replace ((q - 1) * steps) with (steps * q - steps) in Hn by ring.
        lia.
    - rewrite (Hex Hne) in Hn.
      replace (q * steps) with (steps * q) in Hn by ring. lia. }
  rewrite Hnk in Hstep, Hv.
  replace (Z.max 1 (Z.min steps k)) with k in Hstep, Hv by lia.
  destruct (roundtrip_step steps k Hk ltac:(lia)) as [Hvb Hrt].
  exists k, pct, (Hub.set_analog hub (_speed_join self) (k * 65535 / steps)).
  split; [by apply current_step_of_spec; lia|].
  split; [unfold percentage; fold r; by rewrite Hsteps, Hdec|].
  split; [done|].
  split; [rewrite set_percentage_nonzero by lia; by rewrite Hsteps, Hv|].
  split; [done|].
  unfold percentage. rewrite Hsteps, get_set_analog.
  rewrite percentage_of_raw_nearest by lia. rewrite Hrt.
  by replace (Z.min steps (Z.max 1 k)) with k by lia.
Qed.

Lemma reported_percentage_stable_witness :
  exists k pct hub',
    current_step_of 3 (Hub.get_analog (Hub.analog_changed empty_hub 7 40000) 7)
    = Some k
    /\ percentage (fan_with_steps 3) (Hub.analog_changed empty_hub 7 40000)
       = Some pct
    /\ step_of_percentage 3 pct = Some k
    /\ async_set_percentage (fan_with_steps 3) pct
         (Hub.analog_changed empty_hub 7 40000) = Some hub'
    /\ hub' = Hub.set_analog (Hub.analog_changed empty_hub 7 40000) 7
                (k * 65535 / 3)
    /\ percentage (fan_with_steps 3) hub' = Some pct.
Proof.
  apply (reported_percentage_stable (fan_with_steps 3)
           (Hub.analog_changed empty_hub 7 40000) 3);
    [reflexivity|lia|simpl; lia].
Defined.

(** ** What the commands write *)

(** A speed command that returns has sent one write, to the speed join. *)
Lemma speed_command_writes (self : CrestronFan) (ev : event)
    (hub hub' : Hub.t) :
  speed_command ev = true -> handle self ev hub = Some hub' ->
  exists v, hub' = Hub.set_analog hub (_speed_join self) v.
Proof.
  assert (forall p, async_set_percentage self p hub = Some hub' ->
            exists v, hub' = Hub.set_analog hub (_speed_join self) v) as Hset.
  { intros p. unfold async_set_percentage, async_turn_off.
    destruct (p =? 0); [intros [= <-]; by eexists|].
    destruct (analog_value_of (_speed_steps self) p) as [v|];
      cbn [mbind option_bind]; [|done].
    intros [= <-]. by eexists. }
  destruct ev as [p| |p|d|j v|j b]; cbn [speed_command handle]; try done.
  - intros _. unfold async_turn_on.
    destruct (match p with
              | Some p0 => Some p0
              | None => default_percentage (_speed_steps self)
              end) as [p0|]; cbn [mbind option_bind]; [apply Hset|done].
  - intros _ [= <-]. by eexists.
  - intros _. apply Hset.
Qed.

(** X9: a speed command ([async_turn_on], [async_turn_off],
    [async_set_percentage]) that returns has sent exactly one write, to the
    speed join; the digital joins, every other analog join, the direction
    the entity reports and the availability are as before. *)
Theorem speed_commands_frame (self : CrestronFan) (ev : event)
    (hub hub' : Hub.t) :
  speed_command ev = true -> handle self ev hub = Some hub' ->
  exists v,
    hub' = Hub.set_analog hub (_speed_join self) v
    /\ Hub.sent hub' = Hub.sent hub ++ [Hub.Analog (_speed_join self) v]
    /\ Hub.get_analog hub' (_speed_join self) = v
    /\ (forall j, j <> _speed_join self ->
          Hub.get_analog hub' j = Hub.get_analog hub j)
    /\ (forall j, Hub.get_digital hub' j = Hub.get_digital hub j)
    /\ current_direction self hub' = current_direction self hub
    /\ available self hub' = available self hub.
Proof.
  intros Hev Hh.
  destruct (speed_command_writes self ev hub hub' Hev Hh) as (v & ->).
  exists v. split; [done|]. split; [done|].
  split; [apply get_set_analog|]. split; [|done].
  intros j Hj. unfold Hub.get_analog; simpl.
  by rewrite (proj2 (Z.eqb_neq j (_speed_join self))).
Qed.

Lemma speed_commands_frame_witness :
  exists v,
    Hub.set_analog empty_hub 7 43690
    = Hub.set_analog empty_hub (_speed_join fan_with_reverse) v
    /\ Hub.sent (Hub.set_analog empty_hub 7 43690)
       = Hub.sent empty_hub ++ [Hub.Analog (_speed_join fan_with_reverse) v]
    /\ Hub.get_analog (Hub.set_analog empty_hub 7 43690)
         (_speed_join fan_with_reverse) = v
    /\ (forall j, j <> _speed_join fan_with_reverse ->
          Hub.get_analog (Hub.set_analog empty_hub 7 43690) j
          = Hub.get_analog empty_hub j)
    /\ (forall j, Hub.get_digital (Hub.set_analog empty_hub 7 43690) j
                  = Hub.get_digital empty_hub j)
    /\ current_direction fan_with_reverse (Hub.set_analog empty_hub 7 43690)
       = current_direction fan_with_reverse empty_hub
    /\ available fan_with_reverse (Hub.set_analog empty_hub 7 43690)
       = available fan_with_reverse empty_hub.
Proof.
  apply (speed_commands_frame fan_with_reverse (SetPercentage 50) empty_hub);
    [reflexivity|by vm_compute].
Defined.

(** X10: with a reversal join, a direction that is set is the direction
    read: "forward" and "reverse" come back as they were given, and any
    other string comes back as "forward". *)
Theorem direction_roundtrip (self : CrestronFan) (join : Z) (d : string)
    (hub : Hub.t) :
  _reverse_join self = Some join ->
  exists hub',
    async_set_direction self d hub = Some hub'
    /\ current_direction self hub'
       = Some (if String.eqb d "reverse" then "reverse" else "forward")%string
    /\ (d = "forward"%string \/ d = "reverse"%string ->
        current_direction self hub' = Some d)
    /\ (d <> "reverse"%string ->
        current_direction self hub' = Some "forward"%string).
Proof.
  intros Hjoin. unfold async_set_direction, current_direction. rewrite Hjoin.
  eexists. split; [reflexivity|]. rewrite get_set_digital.
  split; [done|]. split.
  - by intros [-> | ->].
  - intros Hd. by rewrite (proj2 (String.eqb_neq _ _) Hd).
Qed.

Lemma direction_roundtrip_witness :
  exists hub',
    async_set_direction fan_with_reverse "reverse" empty_hub = Some hub'
    /\ current_direction fan_with_reverse hub'
       = Some (if String.eqb "reverse" "reverse"
               then "reverse" else "forward")%string
    /\ ("reverse"%string = "forward"%string
        \/ "reverse"%string = "reverse"%string ->
        current_direction fan_with_reverse hub' = Some "reverse"%string)
    /\ ("reverse"%string <> "reverse"%string ->
        current_direction fan_with_reverse hub' = Some "forward"%string).
Proof.
  exact (direction_roundtrip fan_with_reverse 8 "reverse" empty_hub eq_refl).
Defined.

(** One event adds at most one write, and the write is the entity's own. *)
Lemma handle_sent (self : CrestronFan) (ev : event) (hub : Hub.t) :
  exists ws,
    Hub.sent (default hub (handle self ev hub)) = Hub.sent hub ++ ws
    /\ forallb (own_signal self) ws = true
    /\ (length ws <= 1)%nat.
Proof.
  assert (exists ws : list Hub.signal,
            Hub.sent hub = Hub.sent hub ++ ws
            /\ forallb (own_signal self) ws = true
            /\ (length ws <= 1)%nat) as Hnil.
  { exists []. split; [by rewrite app_nil_r|]. split; [done|simpl; lia]. }
  destruct (speed_command ev) eqn:Hev.
  - destruct (handle self ev hub) as [hub'|] eqn:Hh; [|exact Hnil].
    destruct (speed_command_writes self ev hub hub' Hev Hh) as (v & ->).
    exists [Hub.Analog (_speed_join self) v].
    split; [done|]. split; [|simpl; lia]. simpl. by rewrite Z.eqb_refl.
  - destruct ev as [p| |p|d|j v|j b]; try done;
      cbn [handle default from_option]; try exact Hnil.
    unfold async_set_direction.
    destruct (_reverse_join self) as [join|] eqn:Hjoin;
      cbn [default from_option]; [|exact Hnil].
    eexists [_]. split; [done|]. split; [|simpl; lia].
    simpl. by rewrite Hjoin, Z.eqb_refl.
Qed.

(** X11: whatever the history of commands and hub changes, the entity only
    ever writes to its own joins: every write it has sent is an analog
    write to the speed join or a digital write to the reversal join (none
    of the latter when no reversal join is configured), and there is at
    most one write per event. *)
Theorem only_own_joins_written (self : CrestronFan) (evs : list event) :
  forall hub : Hub.t,
  exists ws,
    Hub.sent (run self evs hub) = Hub.sent hub ++ ws
    /\ forallb (own_signal self) ws = true
    /\ (length ws <= length evs)%nat
    /\ (_reverse_join self = None ->
        forall j b, ~ In (Hub.Digital j b) ws).
Proof.
  assert (forall ws, forallb (own_signal self) ws = true ->
            _reverse_join self = None ->
            forall j b, ~ In (Hub.Digital j b) ws) as Hdig.
  { intros ws Hws Hnone j b Hin.
    apply (proj1 (forallb_forall _ _) Hws) in Hin.
    simpl in Hin. by rewrite Hnone in Hin. }
  induction evs as [|ev evs IH]; intros hub.
  - exists []. split; [by rewrite app_nil_r|]. split; [done|].
    split; [simpl; lia|]. by intros _ j b [].
  - change (run self (ev :: evs) hub)
      with (run self evs (default hub (handle self ev hub))).
    destruct (handle_sent self ev hub) as (ws1 & Hs1 & Ho1 & Hl1).
    destruct (IH (default hub (handle self ev hub)))
      as (ws2 & Hs2 & Ho2 & Hl2 & _).
    assert (forallb (own_signal self) (ws1 ++ ws2) = true) as Hown
      by (rewrite forallb_app, Ho1, Ho2; done).
    exists (ws1 ++ ws2). split; [by rewrite Hs2, Hs1, app_assoc|].
    split; [done|]. split; [|by apply Hdig].
    rewrite length_app. simpl. lia.
Qed.

(** A percentage in [0, 100] is written as a 16-bit value. *)
Lemma set_percentage_uint16 (self : CrestronFan) (p : Z) (hub hub' : Hub.t) :
  match _speed_steps self with Some steps => 0 <= steps | None => True end ->
  0 <= p <= 100 ->
  async_set_percentage self p hub = Some hub' ->
  exists v, hub' = Hub.set_analog hub (_speed_join self) v /\ 0 <= v <= 65535.
Proof.
  intros HS Hp. destruct (Z.eq_dec p 0) as [->|Hne].
  { intros [= <-]. exists 0. split; [done|lia]. }
  rewrite set_percentage_nonzero by done.
  destruct (analog_value_of (_speed_steps self) p) as [v|] eqn:Hv;
    cbn [mbind option_bind]; [|done].
  intros [= <-]. exists v. split; [done|].
  destruct (_speed_steps self) as [steps|].
  - destruct (Z.eq_dec steps 0) as [->|Hs0].
    { by rewrite analog_value_of_zero_steps in Hv. }
    pose proof (analog_value_of_stepped steps p ltac:(lia) ltac:(lia)) as H.
    rewrite Hv in H. lia.
  - rewrite analog_value_of_stepless in Hv by lia. injection Hv as <-.
    split; [apply Z.div_pos; lia|apply Z.div_le_upper_bound; lia].
Qed.

(** The percentage [async_turn_on] chooses is in [0, 100]. *)
Lemma default_percentage_range (speed_steps : option Z) (p : Z) :
  match speed_steps with
  | Some steps => 0 <= steps <= 2 ^ 40
  | None => True
  end ->
  default_percentage speed_steps = Some p -> 0 <= p <= 100.
Proof.
  intros HS. destruct speed_steps as [steps|]; [|intros [= <-]; lia].
  destruct (Z.eq_dec steps 0) as [->|Hs0].
  { unfold default_percentage. by rewrite int_truediv_zero. }
  change (default_percentage (Some steps)) with (percentage_of_step steps 1).
  destruct (percentage_of_step_range steps 1 ltac:(lia) ltac:(lia))
    as (pct & -> & Hb & _).
  by intros [= <-].
Qed.

Lemma handle_uint16 (self : CrestronFan) (ev : event) (hub : Hub.t) :
  match _speed_steps self with
  | Some steps => 0 <= steps <= 2 ^ 40
  | None => True
  end ->
  percent_event ev = true ->
  exists ws,
    Hub.sent (default hub (handle self ev hub)) = Hub.sent hub ++ ws
    /\ forallb uint16_signal ws = true.
Proof.
  intros HS Hev.
  assert (match _speed_steps self with
          | Some steps => 0 <= steps
          | None => True
          end) as HS0 by (destruct (_speed_steps self); [lia|done]).
  assert (forall p, 0 <= p <= 100 ->
            exists ws,
              Hub.sent (default hub (async_set_percentage self p hub))
              = Hub.sent hub ++ ws
              /\ forallb uint16_signal ws = true) as Hset.
  { intros p Hp.
    destruct (async_set_percentage self p hub) as [hub'|] eqn:Hh.
    - destruct (set_percentage_uint16 self p hub hub' HS0 Hp Hh)
        as (v & -> & Hv).
      exists [Hub.Analog (_speed_join self) v]. split; [done|].
      simpl. rewrite andb_true_r. apply andb_true_iff.
      split; apply Z.leb_le; lia.
    - exists []. split; [simpl; by rewrite app_nil_r|done]. }
  destruct ev as [[p|]| |p|d|j v|j b]; cbn [handle percent_event] in *.
  - apply andb_true_iff in Hev as [H0%Z.leb_le H1%Z.leb_le].
    unfold async_turn_on. cbn [mbind option_bind]. apply Hset. lia.
  - unfold async_turn_on.
    destruct (default_percentage (_speed_steps self)) as [p|] eqn:Hp;
      cbn [mbind option_bind].
    + apply Hset. by apply (default_percentage_range _ _ HS).
    + exists []. split; [simpl; by rewrite app_nil_r|done].
  - exists [Hub.Analog (_speed_join self) 0]. by split.
  - apply andb_true_iff in Hev as [H0%Z.leb_le H1%Z.leb_le].
    apply Hset. lia.
  - unfold async_set_direction.
    destruct (_reverse_join self) as [join|]; cbn [default from_option].
    + eexists [_]. by split.
    + exists []. split; [by rewrite app_nil_r|done].
  - exists []. split; [simpl; by rewrite app_nil_r|done].
  - exists []. split; [simpl; by rewrite app_nil_r|done].
Qed.

(** X12: whatever the history, as long as the step count is at most [2^40]
    (0 included, where the commands raise) and every commanded percentage
    is in [0, 100], every analog value the entity has written fits an
    analog join: it is in [0, 65535]. *)
Theorem only_uint16_written (self : CrestronFan) (evs : list event) :
  match _speed_steps self with
  | Some steps => 0 <= steps <= 2 ^ 40
  | None => True
  end ->
  forallb percent_event evs = true ->
  forall hub : Hub.t,
  exists ws,
    Hub.sent (run self evs hub) = Hub.sent hub ++ ws
    /\ forallb uint16_signal ws = true.
Proof.
  intros HS. induction evs as [|ev evs IH]; intros Hevs hub.
  - exists []. split; [by rewrite app_nil_r|done].
  - cbn [forallb] in Hevs. apply andb_true_iff in Hevs as [Hev Hevs].
    change (run self (ev :: evs) hub)
      with (run self evs (default hub (handle self ev hub))).
    destruct (handle_uint16 self ev hub HS Hev) as (ws1 & Hs1 & Ho1).
    destruct (IH Hevs (default hub (handle self ev hub))) as (ws2 & Hs2 & Ho2).
    exists (ws1 ++ ws2). split; [by rewrite Hs2, Hs1, app_assoc|].
    by rewrite forallb_app, Ho1, Ho2.
Qed.

Lemma only_uint16_written_witness :
  exists ws,
    Hub.sent
      (run (fan_with_steps 3)
         [TurnOn None; SetPercentage 50; AnalogChanged 7 9; TurnOff]
         empty_hub)
    = Hub.sent empty_hub ++ ws
    /\ forallb uint16_signal ws = true.
Proof.
  apply (only_uint16_written (fan_with_steps 3)
           [TurnOn None; SetPercentage 50; AnalogChanged 7 9; TurnOff]);
    [simpl; lia|reflexivity].
Defined.

(** ** The attributes set at construction *)

(** X13: the features [__init__] declares match what the entity does:
    setting the speed is always supported, and the direction is supported
    exactly when the entity reports a direction, which is exactly when
    [async_set_direction] sends a write; without it the command returns
    with the hub untouched. *)
Theorem direction_feature_iff (c : config) (hub : Hub.t) (d : string) :
  In SET_SPEED (_attr_supported_features (__init__ c))
  /\ (In DIRECTION (_attr_supported_features (__init__ c))
      <-> is_Some (current_direction (__init__ c) hub))
  /\ (In DIRECTION (_attr_supported_features (__init__ c))
      <-> exists hub', async_set_direction (__init__ c) d hub = Some hub'
                       /\ Hub.sent hub' <> Hub.sent hub)
  /\ (~ In DIRECTION (_attr_supported_features (__init__ c))
      -> current_direction (__init__ c) hub = None
         /\ async_set_direction (__init__ c) d hub = Some hub).
Proof.
  unfold current_direction, async_set_direction, __init__; simpl.
  destruct (CONF_REVERSE_JOIN c) as [join|]; simpl.
  - split; [by left|]. split; [split; [by eexists|by right; left]|].
    split; [|by intros []; right; left].
    split; [|by right; left]. intros _. eexists. split; [done|].
    simpl. intros Heq. apply (f_equal length) in Heq.
    rewrite length_app in Heq. simpl in Heq. lia.
  - split; [by left|]. split.
    { split; [by intros [|[]]|by intros []]. }
    split; [|done]. split; [by intros [|[]]|].
    by intros (hub' & [= <-] & Hne).
Qed.

(** X14: with no step count or at most 100 steps, [_attr_speed_count] (the
    step count, or 100 without one) is the number of speeds the encoder
    has: every percentage in [1, 100] is written as the integer part of
    [i * 65535 / speed_count] for some [i] from 1 to the speed count,
    every such [i] is written by some percentage, and the values are
    strictly increasing in [i]. *)
Theorem speed_count_resolution (c : config) (hub : Hub.t) :
  match CONF_SPEED_STEPS c with
  | Some steps => 1 <= steps <= 100
  | None => True
  end ->
  _attr_speed_count (__init__ c)
  = match CONF_SPEED_STEPS c with Some steps => steps | None => 100 end
  /\ (forall p, 1 <= p <= 100 ->
        exists i,
          1 <= i <= _attr_speed_count (__init__ c)
          /\ async_set_percentage (__init__ c) p hub
             = Some (Hub.set_analog hub (_speed_join (__init__ c))
                       (i * 65535 / _attr_speed_count (__init__ c))))
  /\ (forall i, 1 <= i <= _attr_speed_count (__init__ c) ->
        exists p,
          1 <= p <= 100
          /\ async_set_percentage (__init__ c) p hub
             = Some (Hub.set_analog hub (_speed_join (__init__ c))
                       (i * 65535 / _attr_speed_count (__init__ c))))
  /\ (forall i i', 1 <= i < i' -> i' <= _attr_speed_count (__init__ c) ->
        i * 65535 / _attr_speed_count (__init__ c)
        < i' * 65535 / _attr_speed_count (__init__ c)).
Proof.
  intros HS.
  assert (forall steps, 1 <= steps <= 100 -> 1 <= steps <= 2 ^ 37) as H37.
  { intros steps Hs. split; [lia|].
    apply Z.le_trans with 100; [lia|done]. }
  assert (forall n i i', 1 <= n <= 100 -> 1 <= i < i' -> i' <= n ->
            i * 65535 / n < i' * 65535 / n) as Hinc.
  { intros n i i' Hn Hi Hi'.
    assert (i * 65535 / n + 1 <= i' * 65535 / n); [|lia].
    rewrite <- (Z.div_add (i * 65535) 1 n) by lia.
    apply Z.div_le_mono; lia. }
  assert (_speed_steps (__init__ c) = CONF_SPEED_STEPS c) as Hst by done.
  destruct (CONF_SPEED_STEPS c) as [steps|] eqn:Hsteps.
  - assert (_attr_speed_count (__init__ c) = steps) as ->
      by (unfold __init__; simpl; by rewrite Hsteps).
    split; [done|]. split; [|split; [|intros i i'; by apply Hinc]].
    + intros p Hp. rewrite set_percentage_nonzero, Hst by lia.
      destruct (analog_value_of_nearest steps p Hp (H37 _ HS))
        as (n & _ & _ & -> & _).
      exists (Z.max 1 (Z.min steps n)). split; [lia|done].
    + intros i Hi.
      pose proof (Z.div_mod (200 * i + steps) (2 * steps) ltac:(lia)) as Hdm.
      pose proof (Z.mod_pos_bound (200 * i + steps) (2 * steps) ltac:(lia))
        as Hmod.
      set (p := (200 * i + steps) / (2 * steps)) in *.
      set (rem := (200 * i + steps) mod (2 * steps)) in *.
      assert (1 <= p <= 100) as Hp by nia.
      exists p. split; [done|].
      rewrite set_percentage_nonzero, Hst by lia.
      destruct (analog_value_of_nearest steps p Hp (H37 _ HS))
        as (n & Hn & _ & -> & _).
      assert (n = i) as ->.
      { replace (2 * steps * p) with (2 * (p * steps)) in Hdm by ring.
        destruct (Z.eq_dec steps 100) as [->|Hne]; lia. }
      cbn [mbind option_bind]. do 3 f_equal. lia.
  - assert (_attr_speed_count (__init__ c) = 100) as ->
      by (unfold __init__; simpl; by rewrite Hsteps).
    split; [done|]. split; [|split; [|intros i i'; by apply Hinc]].
    + intros p Hp. rewrite set_percentage_nonzero, Hst by lia.
      rewrite analog_value_of_stepless by done. exists p. by split.
    + intros i Hi. exists i. split; [done|].
      rewrite set_percentage_nonzero, Hst by lia.
      by rewrite analog_value_of_stepless.
Qed.

Lemma speed_count_resolution_witness :
  _attr_speed_count fan_with_reverse = 3
  /\ (forall p, 1 <= p <= 100 ->
        exists i,
          1 <= i <= _attr_speed_count fan_with_reverse
          /\ async_set_percentage fan_with_reverse p empty_hub
             = Some (Hub.set_analog empty_hub (_speed_join fan_with_reverse)
                       (i * 65535 / _attr_speed_count fan_with_reverse)))
  /\ (forall i, 1 <= i <= _attr_speed_count fan_with_reverse ->
        exists p,
          1 <= p <= 100
          /\ async_set_percentage fan_with_reverse p empty_hub
             = Some (Hub.set_analog empty_hub (_speed_join fan_with_reverse)
                       (i * 65535 / _attr_speed_count fan_with_reverse)))
  /\ (forall i i', 1 <= i < i' -> i' <= _attr_speed_count fan_with_reverse ->
        i * 65535 / _attr_speed_count fan_with_reverse
        < i' * 65535 / _attr_speed_count fan_with_reverse).
Proof.
  apply (speed_count_resolution
           {| CONF_NAME := "fan"; CONF_SPEED_JOIN := 7;
              CONF_SPEED_STEPS := Some 3; CONF_REVERSE_JOIN := Some 8 |}
           empty_hub); simpl; lia.
Defined.

(** X15: with at most 65535 steps the steps have distinct raw values, in
    increasing order: a higher step is written as a strictly larger
    value. *)
Theorem analog_of_step_increasing (steps k k' : Z) :
  1 <= k < k' -> k' <= steps -> steps <= 65535 ->
  exists v v',
    analog_of_step steps k = Some v /\ analog_of_step steps k' = Some v'
    /\ 1 <= v < v' /\ v' <= 65535.
Proof.
  intros Hk Hk' HS.
  assert (steps < 2 ^ 1000) as Hlt
    by (apply Z.le_lt_trans with 65535; [lia|done]).
  assert (forall j, 1 <= j <= steps -> j * 65535 < 2 ^ 53) as H53.
  { intros j Hj. apply Z.le_lt_trans with (65535 * 65535); [|done].
    apply Z.mul_le_mono_nonneg_r; lia. }
  destruct (analog_of_step_spec steps k ltac:(lia) (IZR_le_pow2_1025 _ Hlt))
    as (v & Hv & _ & Hex).
  destruct (analog_of_step_spec steps k' ltac:(lia) (IZR_le_pow2_1025 _ Hlt))
    as (v' & Hv' & Hb' & Hex').
  exists v, v'. split; [done|]. split; [done|].
  rewrite (Hex (H53 k ltac:(lia))), (Hex' (H53 k' ltac:(lia))).
  assert (1 <= k * 65535 / steps) by (apply Z.div_le_lower_bound; lia).
  assert (k * 65535 / steps + 1 <= k' * 65535 / steps).
  { rewrite <- (Z.div_add (k * 65535) 1 steps) by lia.
    apply Z.div_le_mono; lia. }
  assert (k' * 65535 / steps <= 65535)
    by (apply Z.div_le_upper_bound; lia).
  lia.
Qed.

Lemma analog_of_step_increasing_witness :
  exists v v',
    analog_of_step 3 1 = Some v /\ analog_of_step 3 2 = Some v'
    /\ 1 <= v < v' /\ v' <= 65535.
Proof. apply (analog_of_step_increasing 3 1 2); lia. Defined.

(** ** A step count of zero *)

(** X16: a step count of 0 passes [is not None], so the stepped branches
    divide by it: every command of a nonzero percentage and
    [async_turn_on] without one raise before any write, and [percentage]
    and [is_on] raise on a nonzero value of the speed join.  Turning off,
    setting 0 percent and reading a zero value still work. *)
Theorem zero_steps_raise (self : CrestronFan) (hub : Hub.t) (p : Z) :
  _speed_steps self = Some 0 ->
  (p <> 0 -> async_set_percentage self p hub = None
             /\ async_turn_on self (Some p) hub = None
             /\ run self [SetPercentage p; TurnOn (Some p)] hub = hub)
  /\ async_turn_on self None hub = None
  /\ (Hub.get_analog hub (_speed_join self) <> 0 ->
      percentage self hub = None /\ is_on self hub = None)
  /\ async_turn_off self hub = Some (Hub.set_analog hub (_speed_join self) 0)
  /\ async_set_percentage self 0 hub
     = Some (Hub.set_analog hub (_speed_join self) 0)
  /\ (Hub.get_analog hub (_speed_join self) = 0 ->
      percentage self hub = Some 0 /\ is_on self hub = Some false).
Proof.
  intros Hsteps.
  assert (forall h, p <> 0 -> async_set_percentage self p h = None) as Hset.
  { intros h Hp. rewrite set_percentage_nonzero by done.
    by rewrite Hsteps, analog_value_of_zero_steps. }
  split; [|split; [|split; [|split; [done|split; [done|]]]]].
  - intros Hp. split; [by apply Hset|].
    assert (async_turn_on self (Some p) hub = None) as Hon
      by (unfold async_turn_on; cbn [mbind option_bind]; by apply Hset).
    split; [done|].
    unfold run. cbn [fold_left handle]. rewrite (Hset hub Hp).
    cbn [default from_option]. by rewrite Hon.
  - unfold async_turn_on, default_percentage.
    by rewrite Hsteps, int_truediv_zero.
  - intros Hr.
    assert (percentage self hub = None) as Hp.
    { unfold percentage. rewrite Hsteps, percentage_of_raw_stepped by done.
      unfold current_step_of. by rewrite int_truediv_zero. }
    split; [done|]. unfold is_on. by rewrite Hp.
  - intros Hr. unfold is_on, percentage. by rewrite Hr.
Qed.

Lemma zero_steps_raise_witness :
  (50 <> 0 ->
   async_set_percentage (fan_with_steps 0) 50 empty_hub = None
   /\ async_turn_on (fan_with_steps 0) (Some 50) empty_hub = None
   /\ run (fan_with_steps 0) [SetPercentage 50; TurnOn (Some 50)] empty_hub
      = empty_hub)
  /\ async_turn_on (fan_with_steps 0) None empty_hub = None
  /\ (Hub.get_analog empty_hub (_speed_join (fan_with_steps 0)) <> 0 ->
      percentage (fan_with_steps 0) empty_hub = None
      /\ is_on (fan_with_steps 0) empty_hub = None)
  /\ async_turn_off (fan_with_steps 0) empty_hub
     = Some (Hub.set_analog empty_hub (_speed_join (fan_with_steps 0)) 0)
  /\ async_set_percentage (fan_with_steps 0) 0 empty_hub
     = Some (Hub.set_analog empty_hub (_speed_join (fan_with_steps 0)) 0)
  /\ (Hub.get_analog empty_hub (_speed_join (fan_with_steps 0)) = 0 ->
      percentage (fan_with_steps 0) empty_hub = Some 0
      /\ is_on (fan_with_steps 0) empty_hub = Some false).
Proof.
  exact (zero_steps_raise (fan_with_steps 0) empty_hub 50 eq_refl).
Defined.

(** ** The default of turn-on *)

(** X17: with at most 100 steps, [async_turn_on] without a percentage
    selects step 1 and writes its value, the integer part of [65535 / S]:
    the lowest speed, as no percentage in [1, 100] writes a smaller
    value.  The entity then reads as on. *)
Theorem turn_on_default_lowest_step (self : CrestronFan) (hub : Hub.t)
    (steps : Z) :
  _speed_steps self = Some steps -> 1 <= steps <= 100 ->
  step_of_percentage steps (100 / steps) = Some 1
  /\ async_turn_on self None hub
     = Some (Hub.set_analog hub (_speed_join self) (65535 / steps))
  /\ is_on self (Hub.set_analog hub (_speed_join self) (65535 / steps))
     = Some true
  /\ (forall p, 1 <= p <= 100 ->
        exists v, async_set_percentage self p hub
                  = Some (Hub.set_analog hub (_speed_join self) v)
                  /\ 65535 / steps <= v).
Proof.
  intros Hsteps HS.
  assert (steps <= 2 ^ 37) as HS37
    by (apply Z.le_trans with 100; [lia|done]).
  pose proof (range_all_spec _ _ _ steps default_percentage_upto_100
                ltac:(lia)) as Hd.
  cbv beta in Hd. apply opt_eqb_eq in Hd.
  assert (1 <= 100 / steps) as H1 by (apply Z.div_le_lower_bound; lia).
  assert (100 / steps <= 100) as H2 by (apply Z.div_le_upper_bound; lia).
  destruct (analog_value_of_nearest steps (100 / steps) ltac:(lia) ltac:(lia))
    as (n & Hn & Hstep & Hv & _).
  assert (n = 1) as ->.
  { pose proof (Z.div_mod 100 steps ltac:(lia)) as Hdm.
    pose proof (Z.mod_pos_bound 100 steps ltac:(lia)) as Hmod.
    set (q := 100 / steps) in *.
    replace (q * steps) with (steps * q) in Hn by ring.
    assert (50 < steps * q).
    { destruct (Z_le_gt_dec steps 50); [lia|].
      assert (steps * 1 <= steps * q)
        by (apply Z.mul_le_mono_nonneg_l; lia). lia. }
    lia. }
  replace (Z.max 1 (Z.min steps 1)) with 1 in Hstep, Hv by lia.
  rewrite Z.mul_1_l in Hv.
  split; [done|]. split; [|split].
  - unfold async_turn_on. rewrite Hsteps, Hd. cbn [mbind option_bind].
    rewrite set_percentage_nonzero by lia. by rewrite Hsteps, Hv.
  - rewrite is_on_nonzero_value; [done| |rewrite get_set_analog].
    + by rewrite Hsteps.
    + split; [apply Z.div_le_lower_bound|apply Z.div_le_upper_bound]; lia.
  - intros p Hp.
    destruct (analog_value_of_nearest steps p Hp ltac:(lia))
      as (m & _ & _ & Hvp & _).
    eexists. split.
    + rewrite set_percentage_nonzero by lia. by rewrite Hsteps, Hvp.
    + rewrite <- (Z.mul_1_l 65535) at 1.
      apply Z.div_le_mono; [lia|]. apply Z.mul_le_mono_nonneg_r; lia.
Qed.

Lemma turn_on_default_lowest_step_witness :
  step_of_percentage 3 (100 / 3) = Some 1
  /\ async_turn_on (fan_with_steps 3) None empty_hub
     = Some (Hub.set_analog empty_hub (_speed_join (fan_with_steps 3))
               (65535 / 3))
  /\ is_on (fan_with_steps 3)
       (Hub.set_analog empty_hub (_speed_join (fan_with_steps 3)) (65535 / 3))
     = Some true
  /\ (forall p, 1 <= p <= 100 ->
        exists v, async_set_percentage (fan_with_steps 3) p empty_hub
                  = Some (Hub.set_analog empty_hub
                            (_speed_join (fan_with_steps 3)) v)
                  /\ 65535 / 3 <= v).
Proof.
  apply (turn_on_default_lowest_step (fan_with_steps 3) empty_hub 3);
    [reflexivity|lia].
Defined.

(** ** The power state after a command *)

Lemma set_percentage_is_on (self : CrestronFan) (hub : Hub.t) (p : Z) :
  match _speed_steps self with
  | Some steps => 1 <= steps <= 100
  | None => True
  end ->
  0 <= p <= 100 ->
  exists hub',
    async_set_percentage self p hub = Some hub'
    /\ is_on self hub' = Some (negb (p =? 0)).
Proof.
  intros HS Hp. destruct (Z.eqb_spec p 0) as [->|Hne].
  - eexists. split; [done|]. unfold is_on, percentage.
    by rewrite get_set_analog.
  - destruct (analog_value_of_mono (_speed_steps self) p p)
      as (v & v' & Hv & _ & Hv1 & Hv2 & Hv3); [|lia|lia|].
    { destruct (_speed_steps self) as [steps|]; [|done].
      split; [lia|]. apply Z.le_trans with 100; [lia|done]. }
    exists (Hub.set_analog hub (_speed_join self) v).
    rewrite set_percentage_nonzero by done. rewrite Hv.
    split; [done|]. apply is_on_nonzero_value; [done|].
    rewrite get_set_analog. lia.
Qed.

(** X18: with no step count or at most 100 steps, a speed command with a
    percentage in [0, 100] (or none) does not raise, and [is_on] afterwards
    is what was commanded: false after [async_turn_off] and after a
    percentage of 0, true after any other percentage and after
    [async_turn_on] without one. *)
Theorem is_on_after_command (self : CrestronFan) (ev : event) (hub : Hub.t) :
  match _speed_steps self with
  | Some steps => 1 <= steps <= 100
  | None => True
  end ->
  speed_command ev = true -> percent_event ev = true ->
  exists hub',
    handle self ev hub = Some hub'
    /\ is_on self hub' = Some (commanded_on ev).
Proof.
  intros HS Hsp Hpe.
  destruct ev as [[p|]| |p|d|j v|j b]; try done;
    cbn [handle percent_event commanded_on] in *.
  - apply andb_true_iff in Hpe as [H0%Z.leb_le H1%Z.leb_le].
    unfold async_turn_on. cbn [mbind option_bind].
    apply set_percentage_is_on; [done|lia].
  - assert (exists p, default_percentage (_speed_steps self) = Some p
                      /\ 1 <= p <= 100) as (p & Hp & Hpb).
    { destruct (_speed_steps self) as [steps|];
        [|exists 1; split; [done|lia]].
      pose proof (range_all_spec _ _ _ steps default_percentage_upto_100
                    ltac:(lia)) as Hd.
      cbv beta in Hd. apply opt_eqb_eq in Hd.
      exists (100 / steps). split; [done|].
      split; [apply Z.div_le_lower_bound|apply Z.div_le_upper_bound]; lia. }
    unfold async_turn_on. rewrite Hp. cbn [mbind option_bind].
    destruct (set_percentage_is_on self hub p HS ltac:(lia))
      as (hub' & Hh & Hon).
    exists hub'. split; [done|]. rewrite Hon.
    by rewrite (proj2 (Z.eqb_neq p 0)) by lia.
  - eexists. split; [done|]. unfold is_on, percentage.
    by rewrite get_set_analog.
  - apply andb_true_iff in Hpe as [H0%Z.leb_le H1%Z.leb_le].
    apply set_percentage_is_on; [done|lia].
Qed.

Lemma is_on_after_command_witness :
  exists hub',
    handle (fan_with_steps 3) (TurnOn None) empty_hub = Some hub'
    /\ is_on (fan_with_steps 3) hub' = Some (commanded_on (TurnOn None)).
Proof.
  apply (is_on_after_command (fan_with_steps 3) (TurnOn None) empty_hub);
    [simpl; lia|reflexivity|reflexivity].
Defined.

(** X19: with at most 50 steps the percentage tells the step: a higher
    step reads as a strictly higher percentage. *)
Theorem percentage_of_step_increasing (steps k k' : Z) :
  1 <= k < k' -> k' <= steps -> steps <= 50 ->
  exists pct pct',
    percentage_of_step steps k = Some pct
    /\ percentage_of_step steps k' = Some pct'
    /\ 1 <= pct < pct' /\ pct' <= 100.
Proof.
  intros Hk Hk' HS.
  assert (steps <= 2 ^ 40) as HS40 by (apply Z.le_trans with 50; [lia|done]).
  destruct (percentage_of_step_positive steps k ltac:(lia) ltac:(lia))
    as (pct & Hpct & Hp1).
  destruct (percentage_of_step_range steps k ltac:(lia) HS40)
    as (pct0 & Hpct0 & _ & Hb & _).
  rewrite Hpct in Hpct0. injection Hpct0 as <-.
  destruct (percentage_of_step_range steps k' ltac:(lia) HS40)
    as (pct' & Hpct' & Hr' & Hb' & _).
  exists pct, pct'. split; [done|]. split; [done|].
  assert (100 * k / steps + 2 <= 100 * k' / steps).
  { rewrite <- (Z.div_add (100 * k) 2 steps) by lia.
    apply Z.div_le_mono; lia. }
  lia.
Qed.

Lemma percentage_of_step_increasing_witness :
  exists pct pct',
    percentage_of_step 3 1 = Some pct /\ percentage_of_step 3 2 = Some pct'
    /\ 1 <= pct < pct' /\ pct' <= 100.
Proof. apply (percentage_of_step_increasing 3 1 2); lia. Defined.
